(** * Angle-Based Outlier Detection (pyod/models/abod.py)

    A shallow embedding of [_calculate_wocs] and of the [ABOD] detector
    class, and the properties of its fit and scoring paths.

    Numbers.  The program computes on numpy arrays.  The detector is
    modelled over exact rationals ([Qc]): the matrices that reach the
    engine have passed [check_array], so all entries are finite, and a
    computed scalar is either a finite rational or [NaN], the value numpy
    produces for [0 / 0]; there is no rounding, overflow or underflow.  The
    statistic [_calculate_wocs] is modelled a second time in the module
    [Numeric], over the operations of numpy as parameters; the exact model
    and IEEE 754 double precision ([binary64]) are instances of it.  What
    depends on rounding is stated there.

    Errors and state.  Python exceptions are values of [exn]; functions
    that can raise return a [result].  Methods of the detector are
    computations [M A] that take the object's attributes and return the
    attributes as they are when the method returns or raises. *)

From Stdlib Require Import QArith Qcanon Qround Permutation SpecFloat.
From stdpp Require Import base numbers strings list.

Local Open Scope Qc_scope.

(** ** Exceptions and results *)

Inductive exn : Type :=
| ValueError (args : list string)
| IndexError
| AttributeError (name : string)
| NotFittedError (attrs : list string).

Inductive result (A : Type) : Type :=
| Ok (a : A)
| Raise (e : exn).
Arguments Ok {A} a.
Arguments Raise {A} e.

(** [result] is the error monad; [x ← r; k] stops at the first [Raise]. *)
#[export] Instance result_ret : MRet result := fun _ a => Ok a.
#[export] Instance result_bind : MBind result := fun _ _ k r =>
  match r with
  | Ok a => k a
  | Raise e => Raise e
  end.

(** ** Scalars and one-dimensional arrays *)

(** A float64 scalar: a finite value or NaN. *)
Inductive scalar : Type :=
| Fin (q : Qc)
| NaN.

Definition Qc_eqb (x y : Qc) : bool := Qeq_bool x y.

#[export] Instance Qc_inhabited : Inhabited Qc := populate 0.

Definition lift2 (f : Qc -> Qc -> Qc) (x y : scalar) : scalar :=
  match x, y with
  | Fin a, Fin b => Fin (f a b)
  | _, _ => NaN
  end.

Definition fadd : scalar -> scalar -> scalar := lift2 Qcplus.
Definition fsub : scalar -> scalar -> scalar := lift2 Qcminus.
Definition fmul : scalar -> scalar -> scalar := lift2 Qcmult.

(** True division.  A zero divisor gives a non-finite value; numpy gives
    nan for [0 / 0] and an infinity for [x / 0] with [x <> 0].  The model
    has the single non-finite value [NaN]; [zero_divisor_zero_dividend]
    below shows that the dividend is 0 at every zero divisor that
    [_calculate_wocs] meets. *)
Definition fdiv (x y : scalar) : scalar :=
  match x, y with
  | Fin a, Fin b => if Qc_eqb b 0 then NaN else Fin (a / b)
  | _, _ => NaN
  end.

Definition of_nat (n : nat) : scalar := Fin (Qc_of_Z (Z.of_nat n)).

(** A point, or a row of a matrix: a 1-D array of finite values. *)
Abbreviation point := (list Qc).
(** A 2-D array, as the list of its rows. *)
Abbreviation matrix := (list (list Qc)).

(** [np.array_equal(a, b)]: same shape and equal element by element. *)
Fixpoint array_equal (a b : point) : bool :=
  match a, b with
  | [], [] => true
  | x :: a', y :: b' => Qc_eqb x y && array_equal a' b'
  | _, _ => false
  end.

(** [a - b] on 1-D arrays, with numpy's broadcasting of a length-1
    operand; other shape mismatches raise. *)
Definition subtract (a b : point) : result point :=
  if Nat.eqb (length a) (length b) then Ok (zip_with Qcminus a b)
  else match a, b with
       | [x], _ => Ok (map (fun y => x - y) b)
       | _, [y] => Ok (map (fun x => x - y) a)
       | _, _ => Raise (ValueError ["operands could not be broadcast together"%string])
       end.

Fixpoint sum_products (a b : point) : Qc :=
  match a, b with
  | x :: a', y :: b' => x * y + sum_products a' b'
  | _, _ => 0
  end.

(** [np.dot(a, b)] on 1-D arrays of the same length. *)
Definition dot (a b : point) : result scalar :=
  if Nat.eqb (length a) (length b) then Ok (Fin (sum_products a b))
  else Raise (ValueError ["shapes not aligned"%string]).

(** [np.linalg.norm(a, 2) ** 2]: numpy computes [sqrt(dot(a, a))] and
    squares it; in exact arithmetic that is [dot(a, a)]. *)
Definition norm_2_squared (a : point) : scalar := Fin (sum_products a a).

(** [X[i, :]] for a non-negative index. *)
Definition row (X : matrix) (i : nat) : result point :=
  match X !! i with
  | Some r => Ok r
  | None => Raise IndexError
  end.

(** The sum of the entries; the order of summation does not matter in
    exact arithmetic. *)
Definition fsum (l : list scalar) : scalar := foldl fadd (Fin 0) l.

(** [np.var(l)] with the default [ddof = 0]: the mean is [sum / n], the
    result is the sum of the squared deviations from the mean, divided by
    [n].  Nothing is special-cased for the empty list. *)
Definition var (l : list scalar) : scalar :=
  let n := of_nat (length l) in
  let arrmean := fdiv (fsum l) n in
  let x := map (fun v => fsub v arrmean) l in
  fdiv (fsum (map (fun d => fmul d d) x)) n.

(** ** itertools.combinations *)

(** [combinations(pool, r)]: the length-[r] subsequences of [pool], chosen
    by position, in lexicographic order of the positions. *)
Fixpoint combinations {A} (pool : list A) (r : nat) : list (list A) :=
  match r, pool with
  | O, _ => [[]]
  | S _, [] => []
  | S r', x :: pool' =>
      map (cons x) (combinations pool' r') ++ combinations pool' r
  end.

(** ** The weighted-cosine variance *)

(** The body of the loop of [_calculate_wocs] for one element of
    [curr_pair_inds]; [wcos_list] is threaded through. *)
Definition wocs_step (curr_pt : point) (X : matrix)
    (wcos_list : list scalar) (pair_inds : list nat) : result (list scalar) :=
  match pair_inds with
  | [a_ind; b_ind] =>
      a ← row X a_ind;
      b ← row X b_ind;
      if array_equal a curr_pt || array_equal b curr_pt then Ok wcos_list
      else
        a_curr ← subtract a curr_pt;
        b_curr ← subtract b curr_pt;
        d ← dot a_curr b_curr;
        let wcos := fdiv (fdiv d (norm_2_squared a_curr))
                         (norm_2_squared b_curr) in
        Ok (wcos_list ++ [wcos])
  | _ => Raise (ValueError ["not enough values to unpack"%string])
  end.

Fixpoint wocs_loop (curr_pt : point) (X : matrix)
    (wcos_list : list scalar) (curr_pair_inds : list (list nat))
  : result (list scalar) :=
  match curr_pair_inds with
  | [] => Ok wcos_list
  | p :: rest =>
      wcos_list' ← wocs_step curr_pt X wcos_list p;
      wocs_loop curr_pt X wcos_list' rest
  end.

Definition _calculate_wocs (curr_pt : point) (X : matrix) (X_ind : list nat)
  : result scalar :=
  let curr_pair_inds := combinations X_ind 2 in
  wcos_list ← wocs_loop curr_pt X [] curr_pair_inds;
  Ok (var wcos_list).

(** ** The detector object *)

(** [sklearn.neighbors.KDTree(X)]: the index keeps the points it was built
    from. *)
Record KDTree : Type := { tree_data : matrix }.

(** The attributes of an [ABOD] instance.  [contamination], [n_neighbors]
    and [method] are set by [__init__]; the others do not exist until a
    method assigns them ([None]: [hasattr] is false).  An N x 1 score array
    is kept as the list of its N entries. *)
Record ABOD : Type := {
  contamination : Qc;
  n_neighbors : Z;
  method : string;
  _classes : option nat;
  X_train_ : option matrix;
  n_train_ : option nat;
  decision_scores_ : option (list scalar);
  tree_ : option KDTree;
  threshold_ : option scalar;
  labels_ : option (list nat)
}.

Definition __init__ (contamination : Qc) (n_neighbors : Z) (method : string)
  : ABOD :=
  {| contamination := contamination; n_neighbors := n_neighbors;
     method := method; _classes := None; X_train_ := None; n_train_ := None;
     decision_scores_ := None; tree_ := None; threshold_ := None;
     labels_ := None |}.

Definition set__classes (v : nat) (s : ABOD) : ABOD :=
  {| contamination := contamination s; n_neighbors := n_neighbors s;
     method := method s; _classes := Some v; X_train_ := X_train_ s;
     n_train_ := n_train_ s; decision_scores_ := decision_scores_ s;
     tree_ := tree_ s; threshold_ := threshold_ s; labels_ := labels_ s |}.
Definition set_X_train_ (v : matrix) (s : ABOD) : ABOD :=
  {| contamination := contamination s; n_neighbors := n_neighbors s;
     method := method s; _classes := _classes s; X_train_ := Some v;
     n_train_ := n_train_ s; decision_scores_ := decision_scores_ s;
     tree_ := tree_ s; threshold_ := threshold_ s; labels_ := labels_ s |}.
Definition set_n_train_ (v : nat) (s : ABOD) : ABOD :=
  {| contamination := contamination s; n_neighbors := n_neighbors s;
     method := method s; _classes := _classes s; X_train_ := X_train_ s;
     n_train_ := Some v; decision_scores_ := decision_scores_ s;
     tree_ := tree_ s; threshold_ := threshold_ s; labels_ := labels_ s |}.
Definition set_decision_scores_ (v : list scalar) (s : ABOD) : ABOD :=
  {| contamination := contamination s; n_neighbors := n_neighbors s;
     method := method s; _classes := _classes s; X_train_ := X_train_ s;
     n_train_ := n_train_ s; decision_scores_ := Some v;
     tree_ := tree_ s; threshold_ := threshold_ s; labels_ := labels_ s |}.
Definition set_tree_ (v : KDTree) (s : ABOD) : ABOD :=
  {| contamination := contamination s; n_neighbors := n_neighbors s;
     method := method s; _classes := _classes s; X_train_ := X_train_ s;
     n_train_ := n_train_ s; decision_scores_ := decision_scores_ s;
     tree_ := Some v; threshold_ := threshold_ s; labels_ := labels_ s |}.
Definition set_threshold_ (v : scalar) (s : ABOD) : ABOD :=
  {| contamination := contamination s; n_neighbors := n_neighbors s;
     method := method s; _classes := _classes s; X_train_ := X_train_ s;
     n_train_ := n_train_ s; decision_scores_ := decision_scores_ s;
     tree_ := tree_ s; threshold_ := Some v; labels_ := labels_ s |}.
Definition set_labels_ (v : list nat) (s : ABOD) : ABOD :=
  {| contamination := contamination s; n_neighbors := n_neighbors s;
     method := method s; _classes := _classes s; X_train_ := X_train_ s;
     n_train_ := n_train_ s; decision_scores_ := decision_scores_ s;
     tree_ := tree_ s; threshold_ := threshold_ s; labels_ := Some v |}.

(** [hasattr(self, name)]. *)
Definition hasattr (s : ABOD) (name : string) : bool :=
  if String.eqb name "contamination" then true
  else if String.eqb name "n_neighbors" then true
  else if String.eqb name "method" then true
  else if String.eqb name "_classes" then bool_decide (is_Some (_classes s))
  else if String.eqb name "X_train_" then bool_decide (is_Some (X_train_ s))
  else if String.eqb name "n_train_" then bool_decide (is_Some (n_train_ s))
  else if String.eqb name "decision_scores_"
       then bool_decide (is_Some (decision_scores_ s))
  else if String.eqb name "tree_" then bool_decide (is_Some (tree_ s))
  else if String.eqb name "threshold_" then bool_decide (is_Some (threshold_ s))
  else if String.eqb name "labels_" then bool_decide (is_Some (labels_ s))
  else false.

(** ** Methods: state and exceptions *)

(** A method body: from the attributes of [self] to its outcome and the
    attributes afterwards.  Assignments made before an exception stay. *)
Definition M (A : Type) : Type := ABOD -> result A * ABOD.

#[export] Instance M_ret : MRet M := fun _ a s => (Ok a, s).
#[export] Instance M_bind : MBind M := fun _ _ k m s =>
  match m s with
  | (Ok a, s') => k a s'
  | (Raise e, s') => (Raise e, s')
  end.

Definition raise {A} (e : exn) : M A := fun s => (Raise e, s).
Definition lift {A} (r : result A) : M A := fun s => (r, s).
(** Reading [self.name]. *)
Definition attr {A} (name : string) (proj : ABOD -> option A) : M A :=
  fun s => match proj s with
           | Some a => (Ok a, s)
           | None => (Raise (AttributeError name), s)
           end.
Definition self_ {A} (proj : ABOD -> A) : M A := fun s => (Ok (proj s), s).
(** Assigning [self.name = v]. *)
Definition assign (upd : ABOD -> ABOD) : M unit := fun s => (Ok tt, upd s).

(** [for x in l: body], on the attributes of [self] only. *)
Fixpoint for_ {A} (l : list A) (body : A -> M unit) : M unit :=
  match l with
  | [] => mret tt
  | x :: l' => body x ;; for_ l' body
  end.

(** [for x in l: body], with a local variable [v] that the body updates. *)
Fixpoint for_local {A V} (l : list A) (body : A -> V -> M V) (v : V) : M V :=
  match l with
  | [] => mret v
  | x :: l' => v' ← body x v; for_local l' body v'
  end.

(** [range(n)] *)
Definition range (n : nat) : list nat := seq 0 n.

(** [np.zeros([n, 1])] *)
Definition zeros (n : nat) : list scalar := replicate n (Fin 0).

(** [arr[i, 0] = v] on an n x 1 array. *)
Definition setitem (arr : list scalar) (i : nat) (v : scalar)
  : result (list scalar) :=
  if decide (i < length arr)%nat then Ok (<[i := v]> arr) else Raise IndexError.

(** [l.remove(x)]: drops the first occurrence, raises if there is none. *)
Fixpoint list_remove (l : list nat) (x : nat) : result (list nat) :=
  match l with
  | [] => Raise (ValueError ["list.remove(x): x not in list"%string])
  | y :: l' => if Nat.eqb y x then Ok l'
               else l'' ← list_remove l' x; Ok (y :: l'')
  end.

(** [ind_arr[i, :]] *)
Definition index_row (ind_arr : list (list nat)) (i : nat) : result (list nat) :=
  match ind_arr !! i with
  | Some r => Ok r
  | None => Raise IndexError
  end.

(** [arr * -1] *)
Definition negate (arr : list scalar) : list scalar :=
  map (fun v => fmul v (Fin (-1))) arr.

(** Modelled from the spec: [check_parameter] of pyod.utils.utility is not
    among the sources.  The range is closed, 1 <= k <= N in the call of
    [_fit_fast]; a value outside raises a parameter-range error. *)
Definition check_parameter (param low high : Z) : result unit :=
  if bool_decide (low ≤ param ≤ high)%Z then Ok tt
  else Raise (ValueError ["parameter is not in the range"%string]).

(** Modelled from the spec: [check_is_fitted] of sklearn is not among the
    sources.  It fails with a not-fitted error that names the attributes of
    the list that the object does not have. *)
Definition check_is_fitted (attributes : list string) : M unit :=
  fun s =>
    match filter (fun a => hasattr s a = false) attributes with
    | [] => (Ok tt, s)
    | missing => (Raise (NotFittedError missing), s)
    end.

(** The collaborators of the engine that are not among the sources. *)
Class Collaborators : Type := {
  (** [sklearn.utils.check_array]: the validated array, or an error. *)
  check_array : matrix -> result matrix;
  (** [NearestNeighbors(n_neighbors=k).fit(X).kneighbors(n_neighbors=k,
      return_distance=False)]: one row of neighbor indices per point. *)
  kneighbors : matrix -> Z -> result (list (list nat));
  (** [tree.query(X, k=k)]: the index array of the result. *)
  query : KDTree -> matrix -> Z -> result (list (list nat));
  (** [BaseDetector._set_n_classes]: the class count for the labels. *)
  n_classes : option (list Z) -> nat;
  (** [BaseDetector._process_decision_scores]: threshold and labels from
      the contamination and the stored scores. *)
  threshold : Qc -> list scalar -> scalar;
  labels : Qc -> list scalar -> list nat
}.

Section Detector.
Context `{Collaborators}.

(** Modelled from the spec: [_set_n_classes] of [BaseDetector] is not among
    the sources; it establishes the class count. *)
Definition _set_n_classes (y : option (list Z)) : M unit :=
  assign (set__classes (n_classes y)).

(** Modelled from the spec: [_process_decision_scores] of [BaseDetector]
    is not among the sources; it consumes the stored scores and produces
    [threshold_] and [labels_]. *)
Definition _process_decision_scores : M unit :=
  c ← self_ contamination;
  d ← attr "decision_scores_" decision_scores_;
  assign (set_threshold_ (threshold c d));;
  assign (set_labels_ (labels c d)).

(** The body of the loop of [_fit_default]. *)
Definition _fit_default_body (i : nat) : M unit :=
  X ← attr "X_train_" X_train_;
  curr_pt ← lift (row X i);
  n ← attr "n_train_" n_train_;
  X_ind ← lift (list_remove (range n) i);
  X ← attr "X_train_" X_train_;
  w ← lift (_calculate_wocs curr_pt X X_ind);
  d ← attr "decision_scores_" decision_scores_;
  d' ← lift (setitem d i w);
  assign (set_decision_scores_ d').

Definition _fit_default : M unit :=
  n ← attr "n_train_" n_train_;
  for_ (range n) _fit_default_body.

(** The body of the loop of [_fit_fast]. *)
Definition _fit_fast_body (ind_arr : list (list nat)) (i : nat) : M unit :=
  X ← attr "X_train_" X_train_;
  curr_pt ← lift (row X i);
  X_ind ← lift (index_row ind_arr i);
  X ← attr "X_train_" X_train_;
  w ← lift (_calculate_wocs curr_pt X X_ind);
  d ← attr "decision_scores_" decision_scores_;
  d' ← lift (setitem d i w);
  assign (set_decision_scores_ d').

Definition _fit_fast : M unit :=
  k ← self_ n_neighbors;
  n ← attr "n_train_" n_train_;
  lift (check_parameter k 1 (Z.of_nat n));;
  X ← attr "X_train_" X_train_;
  assign (set_tree_ {| tree_data := X |});;
  X ← attr "X_train_" X_train_;
  k ← self_ n_neighbors;
  ind_arr ← lift (kneighbors X k);
  n ← attr "n_train_" n_train_;
  for_ (range n) (_fit_fast_body ind_arr).

Definition fit (X : matrix) (y : option (list Z)) : M unit :=
  X ← lift (check_array X);
  _set_n_classes y;;
  assign (set_X_train_ X);;
  assign (set_n_train_ (length X));;
  n ← attr "n_train_" n_train_;
  assign (set_decision_scores_ (zeros n));;
  m ← self_ method;
  (if String.eqb m "fast" then _fit_fast
   else if String.eqb m "default" then _fit_default
   else raise (ValueError [m; "is not a valid method"%string]));;
  d ← attr "decision_scores_" decision_scores_;
  assign (set_decision_scores_ (negate d));;
  _process_decision_scores.

(** The body of the loop of [_decision_function_default]. *)
Definition _decision_function_default_body (X : matrix) (i : nat)
    (pred_score : list scalar) : M (list scalar) :=
  curr_pt ← lift (row X i);
  n ← attr "n_train_" n_train_;
  let X_ind := range n in
  X_train ← attr "X_train_" X_train_;
  w ← lift (_calculate_wocs curr_pt X_train X_ind);
  lift (setitem pred_score i w).

Definition _decision_function_default (X : matrix) : M (list scalar) :=
  let pred_score := zeros (length X) in
  for_local (range (length X)) (_decision_function_default_body X) pred_score.

(** The body of the loop of [_decision_function_fast]. *)
Definition _decision_function_fast_body (X : matrix)
    (ind_arr : list (list nat)) (i : nat) (pred_score : list scalar)
  : M (list scalar) :=
  curr_pt ← lift (row X i);
  X_ind ← lift (index_row ind_arr i);
  X_train ← attr "X_train_" X_train_;
  w ← lift (_calculate_wocs curr_pt X_train X_ind);
  lift (setitem pred_score i w).

Definition _decision_function_fast (X : matrix) : M (list scalar) :=
  check_is_fitted ["tree_"%string];;
  let pred_score := zeros (length X) in
  t ← attr "tree_" tree_;
  k ← self_ n_neighbors;
  ind_arr ← lift (query t X k);
  for_local (range (length X)) (_decision_function_fast_body X ind_arr)
            pred_score.

Definition decision_function (X : matrix) : M (list scalar) :=
  check_is_fitted ["X_train_"; "n_train_"; "decision_scores_";
                   "threshold_"; "labels_"]%string;;
  X ← lift (check_array X);
  m ← self_ method;
  if String.eqb m "fast" then
    r ← _decision_function_fast X; mret (negate r)
  else
    r ← _decision_function_default X; mret (negate r).

End Detector.

(** ** Definitions used to state the properties *)

(** The pairs of [combinations(pool, 2)], as tuples. *)
Fixpoint pairs {A} (pool : list A) : list (A * A) :=
  match pool with
  | [] => []
  | x :: pool' => map (pair x) pool' ++ pairs pool'
  end.

Definition pair_to_list {A} (p : A * A) : list A := [p.1; p.2].

(** What one pass of the loop body does with the pair [(a_ind, b_ind)]:
    [None] when the pair is skipped, the appended value otherwise. *)
Definition pair_outcome (curr_pt : point) (X : matrix) (p : nat * nat)
  : result (option scalar) :=
  a ← row X p.1;
  b ← row X p.2;
  if array_equal a curr_pt || array_equal b curr_pt then Ok None
  else
    a_curr ← subtract a curr_pt;
    b_curr ← subtract b curr_pt;
    d ← dot a_curr b_curr;
    Ok (Some (fdiv (fdiv d (norm_2_squared a_curr)) (norm_2_squared b_curr))).

(** The statistic as the specification words it, for a pivot [P] of the
    dimension of the rows of [X] and indices within [X]. *)
Definition coincident (P : point) (X : matrix) (i : nat) : bool :=
  array_equal (X !!! i) P.

Definition displacement (P : point) (X : matrix) (i : nat) : point :=
  zip_with Qcminus (X !!! i) P.

(** [dot(a, b) / |a|^2 / |b|^2] for the displacements of the pair. *)
Definition weighted_cosine (P : point) (X : matrix) (p : nat * nat) : Qc :=
  let a := displacement P X p.1 in
  let b := displacement P X p.2 in
  sum_products a b / sum_products a a / sum_products b b.

Definition skipped (P : point) (X : matrix) (p : nat * nat) : bool :=
  coincident P X p.1 || coincident P X p.2.

(** The values collected over the pairs that are not skipped. *)
Definition wocs_values (P : point) (X : matrix) (ps : list (nat * nat))
  : list Qc :=
  weighted_cosine P X <$> filter (fun p => skipped P X p = false) ps.

Definition qsum (qs : list Qc) : Qc := foldr Qcplus 0 qs.

(** Mean of the squared deviations from the mean: the divisor is the
    count. *)
Definition population_variance (qs : list Qc) : Qc :=
  let n := Qc_of_Z (Z.of_nat (length qs)) in
  let mean := qsum qs / n in
  qsum ((fun x => (x - mean) * (x - mean)) <$> qs) / n.

(** The variance of no value is undefined. *)
Definition variance_or_nan (qs : list Qc) : scalar :=
  match qs with
  | [] => NaN
  | _ => Fin (population_variance qs)
  end.

(** Every enumerated pair joins two distinct members of [C], and every
    unordered pair of distinct members of [C] is enumerated exactly once,
    in one of its two orders. *)
Definition each_pair_once (C : list nat) (ps : list (list nat)) : Prop :=
  (∀ p, p ∈ ps → ∃ i j, p = [i; j] ∧ i ∈ C ∧ j ∈ C ∧ i ≠ j) ∧
  (∀ i j, i ∈ C → j ∈ C → i ≠ j →
     length (filter (fun p => p = [i; j] ∨ p = [j; i]) ps) = 1%nat).

(** How often the unordered pair of [i] and [j] occurs in [ps]. *)
Definition hits (i j : nat) (ps : list (nat * nat)) : nat :=
  length (filter (fun p => p = [i; j] ∨ p = [j; i]) (pair_to_list <$> ps)).

(** Inputs of the shape the data model describes: indices into [X], and a
    pivot with as many features as each row of [X]. *)
Definition in_range (X : matrix) (C : list nat) : Prop :=
  Forall (fun i => (i < length X)%nat) C.
Definition same_dimension (P : point) (X : matrix) : Prop :=
  Forall (fun r => length r = length P) X.

(** The scoring of the point of index [i] of [Q] against the training set
    [X]: its candidates are [candidates i]. *)
Definition score_step (Q X : matrix) (candidates : nat -> result (list nat))
    (i : nat) : result scalar :=
  curr_pt ← row Q i;
  X_ind ← candidates i;
  _calculate_wocs curr_pt X X_ind.

(** The attributes when [fit] reaches the dispatch on the method, and when
    it returns with the raw scores [raw]. *)
Definition started `{Collaborators} (X : matrix) (y : option (list Z))
    (s : ABOD) : ABOD :=
  set_decision_scores_ (zeros (length X))
    (set_n_train_ (length X) (set_X_train_ X (set__classes (n_classes y) s))).

Definition fitted `{Collaborators} (raw : list scalar) (s : ABOD) : ABOD :=
  set_labels_ (labels (contamination s) (negate raw))
    (set_threshold_ (threshold (contamination s) (negate raw))
       (set_decision_scores_ (negate raw) s)).

(** The candidate list of the training point [i] at fit time and of a
    query point at score time, in default mode. *)
Definition fit_default_candidates (n i : nat) : result (list nat) :=
  list_remove (range n) i.
Definition score_default_candidates (n : nat) : list nat := range n.

(** The candidates of the training point [i] at fit time, by method. *)
Definition fit_candidates `{Collaborators} (s : ABOD) (X : matrix) (i : nat)
  : result (list nat) :=
  if String.eqb (method s) "fast" then
    ind_arr ← kneighbors X (n_neighbors s); index_row ind_arr i
  else fit_default_candidates (length X) i.

(** The raw scores of the rows of [Q] against the training set [Xt], by
    method: what [decision_function] negates. *)
Definition raw_scores `{Collaborators} (s : ABOD) (Xt : matrix) (Q : matrix)
  : result (list scalar) :=
  if String.eqb (method s) "fast" then
    match tree_ s with
    | Some t =>
        ind_arr ← query t Q (n_neighbors s);
        mapM (score_step Q Xt (index_row ind_arr)) (range (length Q))
    | None => Raise (NotFittedError ["tree_"%string])
    end
  else
    match n_train_ s with
    | Some n =>
        mapM (score_step Q Xt (fun _ => Ok (score_default_candidates n)))
             (range (length Q))
    | None => Raise (AttributeError "n_train_")
    end.

(** A method body that assigns no attribute of [self]. *)
Definition read_only {A} (m : M A) : Prop := ∀ s, (m s).2 = s.

(** What the engine relies on from its collaborators: a validated array
    is a non-empty 2-D array; the neighbor query of [_fit_fast], which
    looks every point up among the other points, answers for every
    1 <= k < N, with N rows of k indices into the N points. *)
Class Contract (E : Collaborators) : Prop := {
  check_array_2d X X' :
    check_array X = Ok X' →
    X' ≠ [] ∧ ∃ D, Forall (fun r => length r = D) X';
  kneighbors_total X k :
    (1 ≤ k < Z.of_nat (length X))%Z → ∃ ind_arr, kneighbors X k = Ok ind_arr;
  kneighbors_shape X k ind_arr :
    kneighbors X k = Ok ind_arr →
    length ind_arr = length X ∧
    Forall (fun r => length r = Z.to_nat k ∧ in_range X r) ind_arr
}.

(** ** A reference instance: brute-force neighbor search *)

Definition squared_distance (a b : point) : Qc :=
  let d := zip_with Qcminus a b in sum_products d d.

(** Insertion of the index [i] after the indices whose key is not larger. *)
Fixpoint insert_by (key : nat -> Qc) (i : nat) (l : list nat) : list nat :=
  match l with
  | [] => [i]
  | j :: l' => if Qle_bool (key j) (key i) then j :: insert_by key i l'
               else i :: l
  end.

(** The indices of [keys] by ascending key, ties by ascending index. *)
Definition argsort (keys : list Qc) : list nat :=
  foldl (fun acc i => insert_by (fun j => keys !!! j) i acc) []
        (range (length keys)).

Definition nearest (data : matrix) (k : nat) (q : point) : list nat :=
  take k (argsort (squared_distance q <$> data)).

Definition is_2d (X : matrix) : bool :=
  match X with
  | [] => false
  | r :: _ => forallb (fun r' => Nat.eqb (length r') (length r)) X
  end.

Definition finite_value (v : scalar) : option Qc :=
  match v with
  | Fin q => Some q
  | NaN => None
  end.

(** The score below which the fraction [1 - c] of the scores lies. *)
Definition percentile_threshold (c : Qc) (d : list scalar) : scalar :=
  match mapM finite_value d with
  | Some qs =>
      let m := Z.to_nat (Qfloor (c * Qc_of_Z (Z.of_nat (length qs)))) in
      match argsort (Qcopp <$> qs) !! m with
      | Some i => Fin (qs !!! i)
      | None => NaN
      end
  | None => NaN
  end.

Definition above (t v : scalar) : nat :=
  match v, t with
  | Fin q, Fin t => if Qle_bool q t then 0%nat else 1%nat
  | _, _ => 0%nat
  end.

#[export] Instance brute_force : Collaborators := {|
  check_array X :=
    if is_2d X then Ok X
    else Raise (ValueError ["Expected 2D array"%string]);
  kneighbors X k :=
    if bool_decide (1 ≤ k ≤ Z.of_nat (length X))%Z
    then Ok (nearest X (Z.to_nat k) <$> X)
    else Raise (ValueError ["Expected n_neighbors <= n_samples"%string]);
  query t X k :=
    if bool_decide (1 ≤ k ≤ Z.of_nat (length (tree_data t)))%Z
    then Ok (nearest (tree_data t) (Z.to_nat k) <$> X)
    else Raise (ValueError ["k must be less than or equal to the number of training points"%string]);
  n_classes y :=
    match y with
    | None => 2%nat
    | Some l => length (remove_dups l)
    end;
  threshold := percentile_threshold;
  labels c d := above (percentile_threshold c d) <$> d
|}.

(** The scores of a call to [decision_function], none if it raises. *)
Definition decision_function_values `{Collaborators} (Q : matrix) (s : ABOD)
  : list scalar :=
  match (decision_function Q s).1 with
  | Ok r => r
  | Raise _ => []
  end.

(** Rationals and small inputs for the examples. *)
Definition Qn (n : Z) : Qc := Q2Qc (inject_Z n).
Definition frac (n : Z) (d : positive) : Qc := Q2Qc (n # d).

(** ** Definitions used for further properties *)

(** A score that is NaN or not above 0, and one that is NaN or not below
    0. *)
Definition nonpositive_or_nan (v : scalar) : Prop :=
  match v with
  | Fin q => q ≤ 0
  | NaN => True
  end.
Definition nonnegative_or_nan (v : scalar) : Prop :=
  match v with
  | Fin q => 0 ≤ q
  | NaN => True
  end.

(** The assignment [self.method = m]. *)
Definition set_method (m : string) (s : ABOD) : ABOD :=
  {| contamination := contamination s; n_neighbors := n_neighbors s;
     method := m; _classes := _classes s; X_train_ := X_train_ s;
     n_train_ := n_train_ s; decision_scores_ := decision_scores_ s;
     tree_ := tree_ s; threshold_ := threshold_ s; labels_ := labels_ s |}.

(** ** The statistic over numpy's own arithmetic *)

(** [_calculate_wocs] leaves every operation on numbers to numpy.  In the
    module [Numeric] the function is embedded a second time, with these
    operations as parameters: nothing is assumed about rounding, overflow
    or the element type of the arrays, so that what is proved of
    [Numeric._calculate_wocs] holds of the program on float64 and on integer
    input alike.  The model above is its instance [exact]
    ([calculate_wocs_exact]); [binary64] is IEEE 754 double precision. *)
Module Numeric.

Class Numpy : Type := {
  (** An entry of the matrix and of the pivot; [check_array] keeps the
      dtype of a numeric input. *)
  elem : Type;
  (** A float64: what a true division, the norm and [np.var] return. *)
  num : Type;
  (** [np.array_equal(a, b)] *)
  np_array_equal : list elem → list elem → bool;
  (** [a - b] on 1-D arrays; raises when the shapes do not broadcast. *)
  np_subtract : list elem → list elem → result (list elem);
  (** [np.dot(a, b)] on 1-D arrays, as the dividend of a true division;
      raises when the lengths differ. *)
  np_dot : list elem → list elem → result num;
  (** [np.linalg.norm(a, 2) ** 2] *)
  np_norm_squared : list elem → num;
  (** [x / y] *)
  np_divide : num → num → num;
  (** The sum of an array, [x - y] and [x * y], as [np.var] uses them. *)
  np_sum : list num → num;
  np_minus : num → num → num;
  np_multiply : num → num → num;
  (** A count of values, as the divisor of a true division. *)
  np_count : nat → num;
  (** [np.nan], [0.0] and [np.isfinite(x)] *)
  np_nan : num;
  np_zero : num;
  np_isfinite : num → bool
}.

Section Statistic.
Context {N : Numpy}.

(** [X[i, :]] for a non-negative index. *)
Definition row (X : list (list elem)) (i : nat) : result (list elem) :=
  match X !! i with
  | Some r => Ok r
  | None => Raise IndexError
  end.

(** [np.var(l, ddof=ddof)]: the mean is [sum / n]; the result is the sum
    of the squared deviations from the mean, divided by [n - ddof]. *)
Definition var (l : list num) (ddof : nat) : num :=
  let arrmean := np_divide (np_sum l) (np_count (length l)) in
  let x := (fun v => np_minus v arrmean) <$> l in
  np_divide (np_sum ((fun d => np_multiply d d) <$> x))
            (np_count (length l - ddof)).

(** The body of the loop of [_calculate_wocs]. *)
Definition wocs_step (curr_pt : list elem) (X : list (list elem))
    (wcos_list : list num) (pair_inds : list nat) : result (list num) :=
  match pair_inds with
  | [a_ind; b_ind] =>
      a ← row X a_ind;
      b ← row X b_ind;
      if np_array_equal a curr_pt || np_array_equal b curr_pt then Ok wcos_list
      else
        a_curr ← np_subtract a curr_pt;
        b_curr ← np_subtract b curr_pt;
        d ← np_dot a_curr b_curr;
        let wcos := np_divide (np_divide d (np_norm_squared a_curr))
                              (np_norm_squared b_curr) in
        Ok (wcos_list ++ [wcos])
  | _ => Raise (ValueError ["not enough values to unpack"%string])
  end.

Fixpoint wocs_loop (curr_pt : list elem) (X : list (list elem))
    (wcos_list : list num) (curr_pair_inds : list (list nat))
  : result (list num) :=
  match curr_pair_inds with
  | [] => Ok wcos_list
  | p :: rest =>
      wcos_list' ← wocs_step curr_pt X wcos_list p;
      wocs_loop curr_pt X wcos_list' rest
  end.

(** [np.var(wcos_list)]: no [ddof] is passed, the default is 0. *)
Definition _calculate_wocs (curr_pt : list elem) (X : list (list elem))
    (X_ind : list nat) : result num :=
  let curr_pair_inds := combinations X_ind 2 in
  wcos_list ← wocs_loop curr_pt X [] curr_pair_inds;
  Ok (var wcos_list 0).

(** The statistic as the specification words it. *)

(** The candidates are indices into [X]. *)
Definition in_range (X : list (list elem)) (C : list nat) : Prop :=
  Forall (fun i => (i < length X)%nat) C.

(** [X[i]] is equal to the pivot in every coordinate. *)
Definition coincident (P : list elem) (X : list (list elem)) (i : nat)
  : bool :=
  match X !! i with
  | Some a => np_array_equal a P
  | None => false
  end.

Definition skipped (P : list elem) (X : list (list elem)) (p : nat * nat)
  : bool :=
  coincident P X p.1 || coincident P X p.2.

(** The pairs of candidates that are not skipped, in the order of the
    enumeration. *)
Definition kept (P : list elem) (X : list (list elem)) (C : list nat)
  : list (nat * nat) :=
  filter (fun p => skipped P X p = false) (pairs C).

(** [dot(a, b) / |a|^2 / |b|^2] with [a = X[i] - P] and [b = X[j] - P],
    for the pair [(i, j)]. *)
Definition weighted_cosine (P : list elem) (X : list (list elem))
    (p : nat * nat) : result num :=
  xi ← row X p.1;
  xj ← row X p.2;
  a ← np_subtract xi P;
  b ← np_subtract xj P;
  d ← np_dot a b;
  Ok (np_divide (np_divide d (np_norm_squared a)) (np_norm_squared b)).

(** Mean of the squared deviations from the mean: the divisor is the
    count. *)
Definition population_variance (vs : list num) : num :=
  let n := np_count (length vs) in
  let mean := np_divide (np_sum vs) n in
  np_divide
    (np_sum ((fun v => np_multiply (np_minus v mean) (np_minus v mean)) <$> vs))
    n.

End Statistic.

(** What [np.var] returns on no value and on one finite value. *)
Class Variance (N : Numpy) : Prop := {
  var_empty : var [] 0 = np_nan;
  var_finite v : np_isfinite v = true → var [v] 0 = np_zero
}.

End Numeric.

(** A pair of indices without its order. *)
Definition unordered (p : nat * nat) : nat * nat :=
  (p.1 `min` p.2, p.1 `max` p.2)%nat.

(** The exact model of the first sections. *)
Definition exact : Numeric.Numpy := {|
  Numeric.elem := Qc;
  Numeric.num := scalar;
  Numeric.np_array_equal := array_equal;
  Numeric.np_subtract := subtract;
  Numeric.np_dot := dot;
  Numeric.np_norm_squared := norm_2_squared;
  Numeric.np_divide := fdiv;
  Numeric.np_sum := fsum;
  Numeric.np_minus := fsub;
  Numeric.np_multiply := fmul;
  Numeric.np_count := of_nat;
  Numeric.np_nan := NaN;
  Numeric.np_zero := Fin 0;
  Numeric.np_isfinite v := match v with Fin _ => true | NaN => false end
|}.

(** ** IEEE 754 double precision *)

(** A float64 is a [spec_float] of precision 53 and maximal exponent 1024;
    the operations round to nearest, ties to even. *)
Definition b64_add : spec_float → spec_float → spec_float := SFadd 53 1024.
Definition b64_sub : spec_float → spec_float → spec_float := SFsub 53 1024.
Definition b64_mul : spec_float → spec_float → spec_float := SFmul 53 1024.
Definition b64_div : spec_float → spec_float → spec_float := SFdiv 53 1024.
Definition b64_sqrt : spec_float → spec_float := SFsqrt 53 1024.

(** The double nearest to [m * 2^e]. *)
Definition b64 (m e : Z) : spec_float := binary_normalize 53 1024 m e false.

(** A finite double; [spec_float] also holds pairs of a mantissa and an
    exponent that are not doubles. *)
Definition b64_isfinite (x : spec_float) : bool :=
  match x with
  | S754_zero _ => true
  | S754_finite _ m e => bounded 53 1024 m e
  | _ => false
  end.

Fixpoint b64_array_equal (a b : list spec_float) : bool :=
  match a, b with
  | [], [] => true
  | x :: a', y :: b' => SFeqb x y && b64_array_equal a' b'
  | _, _ => false
  end.

Definition b64_subtract (a b : list spec_float) : result (list spec_float) :=
  if Nat.eqb (length a) (length b) then Ok (zip_with b64_sub a b)
  else match a, b with
       | [x], _ => Ok (map (fun y => b64_sub x y) b)
       | _, [y] => Ok (map (fun x => b64_sub x y) a)
       | _, _ => Raise (ValueError ["operands could not be broadcast together"%string])
       end.

(** Sums from left to right, starting from 0.0.  numpy adds fewer than
    eight values in this order, and longer arrays in blocks; the order in
    which the products of [np.dot] are added is up to the BLAS library. *)
Definition b64_sum (l : list spec_float) : spec_float :=
  foldl b64_add (S754_zero false) l.

Definition b64_dot (a b : list spec_float) : result spec_float :=
  if Nat.eqb (length a) (length b) then Ok (b64_sum (zip_with b64_mul a b))
  else Raise (ValueError ["shapes not aligned"%string]).

(** [np.linalg.norm(a, 2)] is [sqrt(dot(a, a))]; its square is rounded
    again. *)
Definition b64_norm_squared (a : list spec_float) : spec_float :=
  let norm := b64_sqrt (b64_sum (zip_with b64_mul a a)) in
  b64_mul norm norm.

Definition binary64 : Numeric.Numpy := {|
  Numeric.elem := spec_float;
  Numeric.num := spec_float;
  Numeric.np_array_equal := b64_array_equal;
  Numeric.np_subtract := b64_subtract;
  Numeric.np_dot := b64_dot;
  Numeric.np_norm_squared := b64_norm_squared;
  Numeric.np_divide := b64_div;
  Numeric.np_sum := b64_sum;
  Numeric.np_minus := b64_sub;
  Numeric.np_multiply := b64_mul;
  Numeric.np_count n := b64 (Z.of_nat n) 0;
  Numeric.np_nan := S754_nan;
  Numeric.np_zero := S754_zero false;
  Numeric.np_isfinite := b64_isfinite
|}.

(** ** The neighbor query of scikit-learn at fit time *)

(** [kneighbors()] without a query array looks every training point up
    among the other points: a point is not its own neighbor, and k
    neighbors need k + 1 points.  With fewer points the query raises. *)
Class LeaveOneOut (E : Collaborators) : Prop := {
  kneighbors_bound X k :
    (Z.of_nat (length X) ≤ k)%Z →
    ∃ args, kneighbors X k = Raise (ValueError args)
}.

(** The [k] points of [data] nearest to its point [q] of index [i], that
    point left out. *)
Definition nearest_others (data : matrix) (k i : nat) (q : point) : list nat :=
  let keys := squared_distance q <$> data in
  take k (foldl (fun acc j => insert_by (fun j => keys !!! j) j acc) []
                (seq 0 i ++ seq (S i) (length data - S i))).

(** The reference instance with that neighbor query at fit time;
    [brute_force] looks every point up among all the points. *)
Definition leave_one_out : Collaborators := {|
  check_array := @check_array brute_force;
  kneighbors X k :=
    if bool_decide (1 ≤ k < Z.of_nat (length X))%Z
    then Ok (imap (nearest_others X (Z.to_nat k)) X)
    else Raise (ValueError ["Expected n_neighbors <= n_samples"%string]);
  query := @query brute_force;
  n_classes := @n_classes brute_force;
  threshold := @threshold brute_force;
  labels := @labels brute_force
|}.

(** ** Arithmetic of scalars *)

Lemma Qc_eqb_eq (x y : Qc) : Qc_eqb x y = true ↔ x = y.
Proof.
  unfold Qc_eqb. rewrite Qeq_bool_iff. split.
  - apply Qc_is_canon.
  - intros ->. reflexivity.
Qed.

Lemma Qc_eqb_refl (x : Qc) : Qc_eqb x x = true.
Proof. by apply Qc_eqb_eq. Qed.

Lemma Qc_eqb_neq (x y : Qc) : Qc_eqb x y = false ↔ x ≠ y.
Proof. rewrite <-Qc_eqb_eq. by destruct (Qc_eqb x y). Qed.

Lemma fadd_comm (x y : scalar) : fadd x y = fadd y x.
Proof. destruct x, y; simpl; try done. by rewrite Qcplus_comm. Qed.

Lemma fadd_assoc (x y z : scalar) : fadd (fadd x y) z = fadd x (fadd y z).
Proof. destruct x, y, z; simpl; try done. by rewrite Qcplus_assoc. Qed.

Lemma fsum_Permutation (l l' : list scalar) : l ≡ₚ l' → fsum l = fsum l'.
Proof.
  unfold fsum. generalize (Fin 0).
  intros a Hp. revert a.
  induction Hp as [|x l l' _ IH|x y l|l l' l'' _ IH1 _ IH2]; intros a; simpl.
  - done.
  - apply IH.
  - f_equal. rewrite !fadd_assoc. f_equal. apply fadd_comm.
  - by rewrite IH1.
Qed.

Lemma var_Permutation (l l' : list scalar) : l ≡ₚ l' → var l = var l'.
Proof.
  intros Hp. unfold var.
  rewrite <-(Permutation_length Hp), <-(fsum_Permutation _ _ Hp).
  f_equal. apply fsum_Permutation. by rewrite Hp.
Qed.

Lemma sum_products_comm (a b : point) : sum_products a b = sum_products b a.
Proof.
  revert b. induction a as [|x a IH]; intros [|y b]; simpl; try done.
  by rewrite IH, Qcmult_comm.
Qed.

Lemma fdiv_swap (d x y : scalar) : fdiv (fdiv d x) y = fdiv (fdiv d y) x.
Proof.
  destruct d as [d|], x as [x|], y as [y|]; simpl; try done;
    repeat (case_match; simpl; try done).
  f_equal. unfold Qcdiv. ring.
Qed.

Lemma Qcsquare_nonneg (x : Qc) : 0 ≤ x * x.
Proof.
  destruct (Qclt_le_dec x 0) as [Hneg|Hpos].
  - replace (x * x) with ((- x) * (- x)) by ring.
    assert (0 ≤ - x).
    { apply Qclt_le_weak in Hneg. apply Qcopp_le_compat in Hneg.
      by replace (- 0) with 0 in Hneg by ring. }
    by apply Qcmult_nonneg_nonneg.
  - by apply Qcmult_nonneg_nonneg.
Qed.

Lemma sum_squares_nonneg (a : point) : 0 ≤ sum_products a a.
Proof.
  induction a as [|x a IH]; simpl; [apply Qcle_refl|].
  apply Qcplus_nonneg_nonneg; [apply Qcsquare_nonneg | done].
Qed.

Lemma sum_squares_zero (a : point) :
  sum_products a a = 0 → Forall (fun x => x = 0) a.
Proof.
  induction a as [|x a IH]; simpl; intros Hs; [constructor|].
  pose proof (Qcsquare_nonneg x) as Hx.
  pose proof (sum_squares_nonneg a) as Ha.
  assert (x * x = 0) as Hxx.
  { apply Qcle_antisym; [|done].
    rewrite <-Hs. rewrite <-(Qcplus_0_r (x * x)) at 1.
    by apply Qcplus_le_mono_l. }
  rewrite Hxx, Qcplus_0_l in Hs.
  constructor; [|by apply IH].
  by destruct (Qcmult_integral _ _ Hxx).
Qed.

(** A division by zero in the weighted cosine is a [0 / 0]: when a
    displacement has norm 0, its inner product with any vector is 0. *)
Lemma zero_divisor_zero_dividend (a b : point) :
  sum_products a a = 0 →
  sum_products a b = 0 ∧ sum_products b a = 0.
Proof.
  intros Ha%sum_squares_zero.
  assert (sum_products a b = 0) as Hab.
  { revert b. induction Ha as [|x a -> _ IH]; intros [|y b]; simpl; try done.
    rewrite IH. ring. }
  split; [done|]. by rewrite sum_products_comm.
Qed.

Lemma array_equal_refl (a : point) : array_equal a a = true.
Proof. induction a as [|x a IH]; simpl; [done|]. by rewrite Qc_eqb_refl. Qed.

Lemma array_equal_eq (a b : point) : array_equal a b = true ↔ a = b.
Proof.
  split; [|intros ->; apply array_equal_refl].
  revert b. induction a as [|x a IH]; intros [|y b]; simpl; try done.
  intros [->%Qc_eqb_eq ->%IH]%andb_true_iff. done.
Qed.

Lemma displacement_norm_nonzero (a P : point) :
  length a = length P → array_equal a P = false →
  sum_products (zip_with Qcminus a P) (zip_with Qcminus a P) ≠ 0.
Proof.
  intros Hlen Hne Hz%sum_squares_zero.
  assert (a = P) as ->; [|by rewrite array_equal_refl in Hne].
  clear Hne. revert P Hlen Hz.
  induction a as [|x a IH]; intros [|y P]; simpl; try done.
  intros [=Hlen] Hz. inversion_clear Hz as [|? ? Hxy Hz'].
  f_equal; [|by apply IH].
  rewrite <-(Qcplus_0_l y), <-Hxy. ring.
Qed.

(** ** The variance *)

Lemma fsum_Fin (qs : list Qc) : fsum (Fin <$> qs) = Fin (qsum qs).
Proof.
  unfold fsum. rewrite <-(Qcplus_0_l (qsum qs)). generalize (Q2Qc 0).
  induction qs as [|q qs IH]; intros a; simpl.
  - by rewrite Qcplus_0_r.
  - rewrite IH. f_equal. ring.
Qed.

Lemma count_nonzero (n : nat) : Qc_eqb (Qc_of_Z (Z.of_nat (S n))) 0 = false.
Proof.
  apply Qc_eqb_neq. rewrite <-Z2Qc_inj_0. intros ?%Z2Qc_inj. lia.
Qed.

Lemma fmap_Fin (f : scalar → scalar) (g : Qc → Qc) (qs : list Qc) :
  (∀ x, f (Fin x) = Fin (g x)) → f <$> (Fin <$> qs) = Fin <$> (g <$> qs).
Proof.
  intros Hfg. rewrite <-!list_fmap_compose. apply list_fmap_ext.
  intros _ x _. apply Hfg.
Qed.

Lemma var_Fin (qs : list Qc) : var (Fin <$> qs) = variance_or_nan qs.
Proof.
  destruct qs as [|q qs]; [done|].
  unfold var, variance_or_nan, population_variance.
  rewrite length_fmap. unfold of_nat. cbn [length].
  rewrite fsum_Fin. unfold fdiv at 2. rewrite count_nonzero.
  set (mean := qsum (q :: qs) / Qc_of_Z (Z.of_nat (S (length qs)))).
  rewrite (fmap_Fin _ (fun x => x - mean)) by done.
  rewrite (fmap_Fin _ (fun d => d * d)) by done.
  rewrite fsum_Fin, <-list_fmap_compose. unfold fdiv.
  by rewrite count_nonzero.
Qed.

Lemma population_variance_singleton (q : Qc) : population_variance [q] = 0.
Proof.
  unfold population_variance, qsum. simpl.
  change (Z.of_nat 1) with 1%Z. rewrite Z2Qc_inj_1.
  field. apply Q_apart_0_1.
Qed.

(** ** The enumeration of pairs *)

Lemma combinations_0 {A} (l : list A) : combinations l 0 = [[]].
Proof. by destruct l. Qed.

Lemma combinations_1 {A} (l : list A) :
  combinations l 1 = (fun x => [x]) <$> l.
Proof.
  induction l as [|x l IH]; simpl; [done|].
  by rewrite IH, combinations_0.
Qed.

Lemma combinations_2 {A} (l : list A) :
  combinations l 2 = pair_to_list <$> pairs l.
Proof.
  induction l as [|x l IH]; [done|].
  change (combinations (x :: l) 2)
    with (map (cons x) (combinations l 1) ++ combinations l 2).
  rewrite IH, combinations_1. simpl.
  rewrite fmap_app. f_equal.
  rewrite <-!list_fmap_compose. done.
Qed.

Lemma elem_of_pairs {A} (l : list A) (x y : A) :
  (x, y) ∈ pairs l → x ∈ l ∧ y ∈ l.
Proof.
  induction l as [|z l IH]; simpl; [by intros ?%elem_of_nil|].
  rewrite elem_of_app, list_elem_of_fmap.
  intros [(w & [= -> ->] & Hw)|Hin].
  - split; [left|by right].
  - destruct (IH Hin). split; by right.
Qed.

Lemma pairs_length {A} (l : list A) :
  (length l < 2)%nat → pairs l = [].
Proof. destruct l as [|x [|y l]]; simpl; [done..|lia]. Qed.

Lemma pairs_distinct {A} (l : list A) (x y : A) :
  NoDup l → (x, y) ∈ pairs l → x ≠ y.
Proof.
  induction 1 as [|z l Hz _ IH]; simpl; [by intros ?%elem_of_nil|].
  rewrite elem_of_app, list_elem_of_fmap.
  intros [(w & [= -> ->] & Hw)|Hin]; [|by apply IH].
  intros ->. done.
Qed.

Section Counting.
Implicit Types (i j z : nat) (l : list nat).

Lemma hits_app i j ps qs : hits i j (ps ++ qs) = (hits i j ps + hits i j qs)%nat.
Proof. unfold hits. by rewrite fmap_app, filter_app, length_app. Qed.

Lemma hits_none i j ps :
  (∀ x y, (x, y) ∈ ps → ¬ (x = i ∧ y = j) ∧ ¬ (x = j ∧ y = i)) →
  hits i j ps = 0%nat.
Proof.
  unfold hits. induction ps as [|[x y] ps IH]; intros Hps; [done|].
  rewrite fmap_cons, filter_cons.
  destruct (Hps x y) as [H1 H2]; [left|].
  rewrite decide_False.
  - apply IH. intros ???. apply Hps. by right.
  - unfold pair_to_list. simpl. intros [[= -> ->]|[= -> ->]]; tauto.
Qed.

Lemma hits_row z x l :
  NoDup l → x ∈ l → z ≠ x → hits z x (pair z <$> l) = 1%nat.
Proof.
  intros Hnd Hx Hzx. induction Hnd as [|w l Hw Hnd IH]; [by apply elem_of_nil in Hx|].
  rewrite fmap_cons.
  change (hits z x ((z, w) :: (pair z <$> l)))
    with (hits z x ([(z, w)] ++ (pair z <$> l))).
  rewrite hits_app.
  apply elem_of_cons in Hx as [->|Hx].
  - rewrite (hits_none _ _ (pair z <$> l)).
    + unfold hits. simpl. rewrite filter_cons, decide_True; [done|by left].
    + intros a b (c & [= -> ->] & Hc)%list_elem_of_fmap.
      split; intros [? ?]; congruence.
  - rewrite IH by done.
    rewrite (hits_none _ _ [(z, w)]); [done|].
    intros a b [= -> ->]%list_elem_of_singleton.
    split; intros [? ?]; congruence.
Qed.

Lemma hits_swap i j ps : hits i j ps = hits j i ps.
Proof.
  unfold hits. f_equal. apply list_filter_iff. intros p. tauto.
Qed.

Lemma hits_pairs i j l :
  NoDup l → i ∈ l → j ∈ l → i ≠ j → hits i j (pairs l) = 1%nat.
Proof.
  intros Hnd. revert i j.
  induction Hnd as [|z l Hz Hnd IH]; intros i j Hi Hj Hij;
    [by apply elem_of_nil in Hi|].
  simpl. rewrite hits_app.
  assert (∀ a b, a ∈ l → b ∈ l → hits a b (pair z <$> l) = 0%nat) as Hrow0.
  { intros a b Ha Hb. apply hits_none.
    intros x y (c & [= -> ->] & Hc)%list_elem_of_fmap.
    split; intros [-> _]; done. }
  assert (∀ x, hits z x (pairs l) = 0%nat) as Hrest0.
  { intros x. apply hits_none. intros a b [Ha Hb]%elem_of_pairs.
    split; [intros [-> _]|intros [_ ->]]; done. }
  apply elem_of_cons in Hi as [->|Hi]; apply elem_of_cons in Hj as [->|Hj].
  - done.
  - by rewrite hits_row, Hrest0.
  - by rewrite hits_swap, hits_row, hits_swap, Hrest0.
  - by rewrite Hrow0, IH.
Qed.

End Counting.

Lemma each_pair_once_NoDup (C : list nat) :
  NoDup C → each_pair_once C (combinations C 2).
Proof.
  intros Hnd. rewrite combinations_2. split.
  - intros p ([i j] & -> & Hin)%list_elem_of_fmap.
    exists i, j. destruct (elem_of_pairs _ _ _ Hin).
    eauto using pairs_distinct.
  - intros i j Hi Hj Hij. by apply hits_pairs.
Qed.

(** ** The loop of [_calculate_wocs] *)

Lemma rbind_Ok {A B} (a : A) (k : A → result B) : (Ok a ≫= k) = k a.
Proof. done. Qed.

Lemma rbind_Raise {A B} (e : exn) (k : A → result B) :
  (Raise e ≫= k) = Raise e.
Proof. done. Qed.

Lemma mapM_cons {A B} (f : A → result B) x l :
  mapM f (x :: l) = y ← f x; k ← mapM f l; Ok (y :: k).
Proof. done. Qed.


Lemma wocs_step_outcome P X wcos_list p :
  wocs_step P X wcos_list (pair_to_list p) =
  o ← pair_outcome P X p; Ok (wcos_list ++ option_list o).
Proof.
  destruct p as [i j]. unfold wocs_step, pair_outcome, pair_to_list. simpl.
  destruct (row X i) as [a|]; simpl; [|done].
  destruct (row X j) as [b|]; simpl; [|done].
  destruct (array_equal a P || array_equal b P); simpl.
  { by rewrite app_nil_r. }
  destruct (subtract a P) as [a_curr|]; simpl; [|done].
  destruct (subtract b P) as [b_curr|]; simpl; [|done].
  by destruct (dot a_curr b_curr).
Qed.

Lemma wocs_loop_outcomes P X wcos_list ps :
  wocs_loop P X wcos_list (pair_to_list <$> ps) =
  os ← mapM (pair_outcome P X) ps; Ok (wcos_list ++ omap id os).
Proof.
  revert wcos_list. induction ps as [|p ps IH]; intros acc.
  { simpl. by rewrite app_nil_r. }
  rewrite fmap_cons.
  change (wocs_loop P X acc (pair_to_list p :: (pair_to_list <$> ps)))
    with (acc' ← wocs_step P X acc (pair_to_list p);
          wocs_loop P X acc' (pair_to_list <$> ps)).
  change (mapM (pair_outcome P X) (p :: ps))
    with (o ← pair_outcome P X p;
          k ← mapM (pair_outcome P X) ps; Ok (o :: k)).
  rewrite wocs_step_outcome.
  destruct (pair_outcome P X p) as [o|]; [|done].
  change (wocs_loop P X (acc ++ option_list o) (pair_to_list <$> ps) =
          os ← (k ← mapM (pair_outcome P X) ps; Ok (o :: k));
          Ok (acc ++ omap id os)).
  rewrite IH. destruct (mapM (pair_outcome P X) ps) as [os|]; [|done].
  destruct o; simpl; by rewrite <-?app_assoc, ?app_nil_r.
Qed.

Lemma calculate_wocs_outcomes P X C :
  _calculate_wocs P X C =
  os ← mapM (pair_outcome P X) (pairs C); Ok (var (omap id os)).
Proof.
  unfold _calculate_wocs. rewrite combinations_2, wocs_loop_outcomes.
  by destruct (mapM (pair_outcome P X) (pairs C)).
Qed.

Lemma subtract_Raise a b e :
  subtract a b = Raise e →
  e = ValueError ["operands could not be broadcast together"%string].
Proof. unfold subtract. repeat case_match; congruence. Qed.

Lemma row_Raise X i e : row X i = Raise e → e = IndexError.
Proof. unfold row. case_match; congruence. Qed.

Lemma pair_outcome_sym P X i j :
  pair_outcome P X (i, j) = pair_outcome P X (j, i).
Proof.
  unfold pair_outcome. simpl.
  destruct (row X i) as [a|] eqn:Hi, (row X j) as [b|] eqn:Hj; simpl;
    try done.
  2: { by rewrite (row_Raise _ _ _ Hi), (row_Raise _ _ _ Hj). }
  rewrite (orb_comm (array_equal b P)).
  destruct (array_equal a P || array_equal b P); [done|].
  destruct (subtract a P) as [a_curr|ea] eqn:Ha,
           (subtract b P) as [b_curr|eb] eqn:Hb; simpl; try done;
    try apply subtract_Raise in Ha; try apply subtract_Raise in Hb;
    subst; try done.
  unfold dot. rewrite (Nat.eqb_sym (length b_curr)).
  destruct (length a_curr =? length b_curr)%nat; [|done].
  cbn -[fdiv]. unfold norm_2_squared.
  by rewrite fdiv_swap, (sum_products_comm b_curr a_curr).
Qed.

Lemma row_lookup X i r : X !! i = Some r → row X i = Ok r ∧ X !!! i = r.
Proof.
  intros Hi. unfold row. rewrite Hi. split; [done|].
  by apply list_lookup_total_correct.
Qed.

Lemma pair_outcome_skipped P X i j :
  (i < length X)%nat → (j < length X)%nat → skipped P X (i, j) = true →
  pair_outcome P X (i, j) = Ok None.
Proof.
  intros Hi Hj.
  destruct (lookup_lt_is_Some_2 X i Hi) as [a Ha].
  destruct (lookup_lt_is_Some_2 X j Hj) as [b Hb].
  destruct (row_lookup _ _ _ Ha) as [Hra Hta].
  destruct (row_lookup _ _ _ Hb) as [Hrb Htb].
  unfold pair_outcome, skipped, coincident.
  cbn [fst snd]. rewrite Hra, Hrb, Hta, Htb, !rbind_Ok. by intros ->.
Qed.

Lemma pair_outcome_well_formed P X i j :
  same_dimension P X → (i < length X)%nat → (j < length X)%nat →
  pair_outcome P X (i, j) =
  Ok (if skipped P X (i, j) then None
      else Some (Fin (weighted_cosine P X (i, j)))).
Proof.
  intros Hdim Hi Hj.
  destruct (skipped P X (i, j)) eqn:Hskip.
  { by apply pair_outcome_skipped. }
  destruct (lookup_lt_is_Some_2 X i Hi) as [a Ha].
  destruct (lookup_lt_is_Some_2 X j Hj) as [b Hb].
  assert (length a = length P) as Hla
    by apply (Forall_lookup_1 _ _ _ _ Hdim Ha).
  assert (length b = length P) as Hlb
    by apply (Forall_lookup_1 _ _ _ _ Hdim Hb).
  destruct (row_lookup _ _ _ Ha) as [Hra Hta].
  destruct (row_lookup _ _ _ Hb) as [Hrb Htb].
  revert Hskip.
  unfold pair_outcome, skipped, weighted_cosine, coincident, displacement.
  cbn [fst snd]. rewrite Hra, Hrb, Hta, Htb, !rbind_Ok.
  intros Hskip. rewrite Hskip.
  apply orb_false_elim in Hskip as [Hna Hnb].
  unfold subtract, dot. rewrite Hla, Hlb, Nat.eqb_refl, !rbind_Ok.
  rewrite !length_zip_with, Hla, Hlb, Nat.eqb_refl, rbind_Ok.
  unfold norm_2_squared, fdiv.
  apply (displacement_norm_nonzero _ _ Hla), Qc_eqb_neq in Hna.
  apply (displacement_norm_nonzero _ _ Hlb), Qc_eqb_neq in Hnb.
  by rewrite Hna, Hnb.
Qed.

Lemma mapM_well_formed P X (ps : list (nat * nat)) :
  same_dimension P X →
  Forall (fun p => (p.1 < length X)%nat ∧ (p.2 < length X)%nat) ps →
  mapM (pair_outcome P X) ps =
  Ok ((fun p => if skipped P X p then None
                else Some (Fin (weighted_cosine P X p))) <$> ps).
Proof.
  intros Hdim. induction 1 as [|[i j] ps [Hi Hj] _ IH]; [done|].
  rewrite mapM_cons.
  simpl in *. rewrite pair_outcome_well_formed by done. rewrite rbind_Ok.
  by rewrite IH.
Qed.

Lemma omap_wocs_values P X (ps : list (nat * nat)) :
  omap id ((fun p => if skipped P X p then None
                     else Some (Fin (weighted_cosine P X p))) <$> ps)
  = Fin <$> wocs_values P X ps.
Proof.
  unfold wocs_values. induction ps as [|p ps IH]; [done|].
  rewrite fmap_cons, filter_cons.
  destruct (skipped P X p) eqn:Hs.
  - rewrite decide_False by done. apply IH.
  - rewrite decide_True by done. rewrite !fmap_cons, <-IH. done.
Qed.

Lemma pairs_in_range {A} (Q : A → Prop) (C : list A) :
  Forall Q C → Forall (fun p => Q p.1 ∧ Q p.2) (pairs C).
Proof.
  intros Hin. apply Forall_forall. intros [i j] Hp.
  destruct (elem_of_pairs _ _ _ Hp) as [Hi Hj].
  rewrite Forall_forall in Hin. split; by apply Hin.
Qed.

Lemma calculate_wocs_well_formed P X C :
  in_range X C → same_dimension P X →
  _calculate_wocs P X C = Ok (var (Fin <$> wocs_values P X (pairs C))).
Proof.
  intros Hin Hdim. rewrite calculate_wocs_outcomes, mapM_well_formed; [|done|].
  - rewrite rbind_Ok. by rewrite omap_wocs_values.
  - by apply (pairs_in_range (fun i => (i < length X)%nat)).
Qed.

(** ** Reordering the candidates *)

Lemma pairs_Permutation {A B} (f : A * A → B) (l l' : list A) :
  (∀ x y, f (x, y) = f (y, x)) →
  l ≡ₚ l' → f <$> pairs l ≡ₚ f <$> pairs l'.
Proof.
  intros Hsym.
  induction 1 as [|x l l' Hp IH|x y l|l l' l'' _ IH1 _ IH2]; simpl.
  - done.
  - rewrite !fmap_app, <-!list_fmap_compose. by rewrite IH, Hp.
  - rewrite (Hsym y x). constructor.
    change (list_fmap (A * A)%type B f) with (fmap (M:=list) f).
    rewrite !app_assoc. apply fmap_Permutation, Permutation_app_tail.
    apply Permutation_app_comm.
  - by etrans.
Qed.

Lemma mapM_fmap {A B} (f : A → result B) (l : list A) :
  mapM f l = mapM id (f <$> l).
Proof.
  induction l as [|x l IH]; [done|].
  change (mapM f (x :: l)) with (y ← f x; k ← mapM f l; Ok (y :: k)).
  by rewrite IH.
Qed.

Lemma mapM_cons_Ok {B} (r : result B) (rs : list (result B)) os :
  mapM id (r :: rs) = Ok os ↔
  ∃ o os', r = Ok o ∧ mapM id rs = Ok os' ∧ os = o :: os'.
Proof.
  change (mapM id (r :: rs)) with (y ← r; k ← mapM id rs; Ok (y :: k)).
  split.
  - destruct r as [o|]; [|done]. simpl.
    destruct (mapM id rs) as [os'|]; [|done]. simpl.
    intros [= <-]. eauto.
  - intros (o & os' & -> & Hrs & ->). simpl. by rewrite Hrs.
Qed.

Lemma mapM_Permutation {B} (rs rs' : list (result B)) os :
  rs ≡ₚ rs' → mapM id rs = Ok os →
  ∃ os', mapM id rs' = Ok os' ∧ os ≡ₚ os'.
Proof.
  intros Hp. revert os.
  induction Hp as [|r rs rs' _ IH|r1 r2 rs|rs rs' rs'' _ IH1 _ IH2]; intros os.
  - eauto.
  - intros (o & os1 & -> & Hrs & ->)%mapM_cons_Ok.
    destruct (IH _ Hrs) as (os2 & Hrs' & Hperm).
    exists (o :: os2). split; [|by constructor].
    apply mapM_cons_Ok. eauto.
  - intros (o2 & os1 & -> & (o1 & os2 & -> & Hrs & ->)%mapM_cons_Ok & ->)
      %mapM_cons_Ok.
    exists (o1 :: o2 :: os2). split; [|by constructor].
    apply mapM_cons_Ok. eexists _, _. split; [done|]. split; [|done].
    apply mapM_cons_Ok. eauto.
  - intros Hrs. destruct (IH1 _ Hrs) as (os1 & Hrs' & Hp1).
    destruct (IH2 _ Hrs') as (os2 & Hrs'' & Hp2).
    exists os2. split; [done|by etrans].
Qed.

Lemma calculate_wocs_Permutation_Ok P X C C' w :
  C ≡ₚ C' → _calculate_wocs P X C = Ok w → _calculate_wocs P X C' = Ok w.
Proof.
  intros Hp. rewrite !calculate_wocs_outcomes.
  rewrite (mapM_fmap _ (pairs C)), (mapM_fmap _ (pairs C')).
  destruct (mapM id (pair_outcome P X <$> pairs C)) as [os|] eqn:Hos; [|done].
  simpl. intros [= <-].
  destruct (mapM_Permutation _ (pair_outcome P X <$> pairs C') _
              (pairs_Permutation _ _ _ (pair_outcome_sym P X) Hp) Hos)
    as (os' & -> & Hperm).
  simpl. f_equal. apply var_Permutation. by rewrite Hperm.
Qed.

(** ** Methods of the detector *)

Lemma set_decision_scores_same s d :
  decision_scores_ s = Some d → set_decision_scores_ d s = s.
Proof. destruct s; simpl; by intros ->. Qed.

Lemma bind_Ok {A B} (m : M A) (k : A → M B) s a s' :
  m s = (Ok a, s') → (m ≫= k) s = k a s'.
Proof. unfold mbind, M_bind. by intros ->. Qed.

Lemma bind_Raise {A B} (m : M A) (k : A → M B) s e s' :
  m s = (Raise e, s') → (m ≫= k) s = (Raise e, s').
Proof. unfold mbind, M_bind. by intros ->. Qed.

Lemma bind_Ok_or_Raise {A B} (m : M A) (k : A → M B) s r s' :
  m s = (r, s') →
  (m ≫= k) s = match r with Ok a => k a s' | Raise e => (Raise e, s') end.
Proof. unfold mbind, M_bind. by intros ->. Qed.

Lemma attr_Some {A} name (proj : ABOD → option A) s a :
  proj s = Some a → attr name proj s = (Ok a, s).
Proof. unfold attr. by intros ->. Qed.

(** [step] takes one step through a method body; [run r] splits on the
    outcome [r] of a call that can raise. *)
Ltac step :=
  first
    [ erewrite bind_Ok by (first [apply attr_Some; eassumption | reflexivity])
    | erewrite bind_Raise by reflexivity ].

Tactic Notation "run" constr(r) "as" simple_intropattern(pat) :=
  destruct r as pat; rewrite ?rbind_Ok, ?rbind_Raise; [|by repeat step].

Section DetectorFacts.
Context `{E : Collaborators}.

Lemma fit_default_body_step i s X n d :
  X_train_ s = Some X → n_train_ s = Some n → decision_scores_ s = Some d →
  _fit_default_body i s =
  match score_step X X (fit_default_candidates n) i with
  | Ok w => match setitem d i w with
            | Ok d' => (Ok tt, set_decision_scores_ d' s)
            | Raise e => (Raise e, s)
            end
  | Raise e => (Raise e, s)
  end.
Proof.
  intros HX Hn Hd.
  unfold _fit_default_body, score_step, fit_default_candidates.
  step.
  run (row X i) as [curr_pt|e]. step. step.
  run (list_remove (range n) i) as [X_ind|e]. step. step.
  run (_calculate_wocs curr_pt X X_ind) as [w|e]. step. step.
  run (setitem d i w) as [d'|e]. by step.
Qed.

Lemma fit_fast_body_step ind_arr i s X d :
  X_train_ s = Some X → decision_scores_ s = Some d →
  _fit_fast_body ind_arr i s =
  match score_step X X (index_row ind_arr) i with
  | Ok w => match setitem d i w with
            | Ok d' => (Ok tt, set_decision_scores_ d' s)
            | Raise e => (Raise e, s)
            end
  | Raise e => (Raise e, s)
  end.
Proof.
  intros HX Hd.
  unfold _fit_fast_body, score_step.
  step.
  run (row X i) as [curr_pt|e]. step.
  run (index_row ind_arr i) as [X_ind|e]. step. step.
  run (_calculate_wocs curr_pt X X_ind) as [w|e]. step. step.
  run (setitem d i w) as [d'|e]. by step.
Qed.

Lemma mapM_Ok_length {A B} (f : A → result B) l ws :
  mapM f l = Ok ws → length ws = length l.
Proof.
  revert ws. induction l as [|x l IH]; intros ws.
  - by intros [= <-].
  - rewrite mapM_cons. destruct (f x); [|done]. rewrite rbind_Ok.
    destruct (mapM f l) as [ws'|]; [|done]. intros [= <-].
    simpl. f_equal. by apply IH.
Qed.

Lemma mapM_Ok_lookup {A B} (f : A → result B) l ws i x :
  mapM f l = Ok ws → l !! i = Some x → ∃ w, ws !! i = Some w ∧ f x = Ok w.
Proof.
  revert ws i. induction l as [|z l IH]; intros ws i; [done|].
  rewrite mapM_cons. destruct (f z) as [w|] eqn:Hz; [|done]. rewrite rbind_Ok.
  destruct (mapM f l) as [ws'|]; [|done]. intros [= <-].
  destruct i as [|i]; simpl.
  - intros [= <-]. eauto.
  - by apply IH.
Qed.

(** The loop over the training points, for a loop body that scores the
    point [i] with the candidates [candidates i] and stores the result. *)
Lemma fit_loop (body : nat → M unit) X n candidates :
  (∀ i s d,
     X_train_ s = Some X → n_train_ s = Some n → decision_scores_ s = Some d →
     body i s =
     match score_step X X candidates i with
     | Ok w => match setitem d i w with
               | Ok d' => (Ok tt, set_decision_scores_ d' s)
               | Raise e => (Raise e, s)
               end
     | Raise e => (Raise e, s)
     end) →
  ∀ l s d,
    X_train_ s = Some X → n_train_ s = Some n → decision_scores_ s = Some d →
    Forall (fun i => (i < length d)%nat) l →
    match mapM (score_step X X candidates) l with
    | Ok ws =>
        for_ l body s =
        (Ok tt, set_decision_scores_
                  (foldl (fun d iw => <[iw.1 := iw.2]> d) d (zip l ws)) s)
    | Raise e => ∃ d', for_ l body s = (Raise e, set_decision_scores_ d' s)
    end.
Proof.
  intros Hbody. induction l as [|i l IH]; intros s d HX Hn Hd Hl.
  { simpl. by rewrite set_decision_scores_same. }
  inversion_clear Hl as [|? ? Hi Hl'].
  rewrite mapM_cons.
  change (for_ (i :: l) body s) with ((body i ;; for_ l body) s).
  pose proof (Hbody i s d HX Hn Hd) as Hstep.
  destruct (score_step X X candidates i) as [w|e]; rewrite ?rbind_Ok, ?rbind_Raise.
  2: { exists d. rewrite set_decision_scores_same by done.
       by erewrite bind_Raise by exact Hstep. }
  unfold setitem in Hstep. rewrite decide_True in Hstep by done.
  erewrite bind_Ok by exact Hstep.
  specialize (IH (set_decision_scores_ (<[i:=w]> d) s) (<[i:=w]> d)).
  rewrite length_insert in IH. specialize (IH HX Hn eq_refl Hl').
  destruct (mapM (score_step X X candidates) l) as [ws|e];
    rewrite ?rbind_Ok, ?rbind_Raise.
  - by rewrite IH.
  - destruct IH as [d' ->]. by exists d'.
Qed.

Lemma fill_scores (ws pre rest : list scalar) :
  length rest = length ws →
  foldl (fun d iw => <[iw.1 := iw.2]> d) (pre ++ rest)
        (zip (seq (length pre) (length ws)) ws) = pre ++ ws.
Proof.
  revert pre rest. induction ws as [|w ws IH]; intros pre [|r rest]; simpl;
    try done.
  intros [= Hlen].
  replace (<[length pre:=w]> (pre ++ r :: rest)) with ((pre ++ [w]) ++ rest).
  - replace (S (length pre)) with (length (pre ++ [w])).
    + rewrite IH by done. by rewrite <-app_assoc.
    + rewrite length_app. simpl. lia.
  - rewrite insert_app_r_alt by lia. rewrite Nat.sub_diag. simpl.
    by rewrite <-app_assoc.
Qed.

Lemma fill_zeros (ws : list scalar) n :
  length ws = n →
  foldl (fun d iw => <[iw.1 := iw.2]> d) (zeros n) (zip (range n) ws) = ws.
Proof.
  intros <-. unfold range.
  apply (fill_scores ws [] (zeros (length ws))).
  unfold zeros. by rewrite length_replicate.
Qed.

Lemma fit_tail raw s0 :
  decision_scores_ s0 = Some raw →
  (d ← attr "decision_scores_" decision_scores_;
   assign (set_decision_scores_ (negate d));;
   _process_decision_scores) s0 = (Ok tt, fitted raw s0).
Proof.
  intros Hd. step. unfold _process_decision_scores.
  erewrite bind_Ok by reflexivity.
  erewrite bind_Ok by reflexivity.
  erewrite bind_Ok by reflexivity.
  erewrite bind_Ok by reflexivity. done.
Qed.

Lemma range_lt n (d : list scalar) :
  length d = n → Forall (fun i => (i < length d)%nat) (range n).
Proof. intros ->. apply Forall_forall. intros i Hi%elem_of_seq. lia. Qed.

Lemma fit_default_cases s X :
  X_train_ s = Some X → n_train_ s = Some (length X) →
  decision_scores_ s = Some (zeros (length X)) →
  match mapM (score_step X X (fit_default_candidates (length X)))
             (range (length X)) with
  | Ok raw => _fit_default s = (Ok tt, set_decision_scores_ raw s)
  | Raise e => ∃ d, _fit_default s = (Raise e, set_decision_scores_ d s)
  end.
Proof.
  intros HX Hn Hd. unfold _fit_default. step.
  pose proof (fit_loop _fit_default_body X (length X)
                (fit_default_candidates (length X))
                (fun i s d => fit_default_body_step i s X (length X) d)
                (range (length X)) s _ HX Hn Hd) as Hloop.
  specialize (Hloop (range_lt _ _ (length_replicate _ _))).
  destruct (mapM _ _) as [raw|e] eqn:Hraw; [|done].
  rewrite Hloop, fill_zeros; [done|].
  apply mapM_Ok_length in Hraw. unfold range in Hraw.
  by rewrite Hraw, length_seq.
Qed.

Lemma fit_fast_cases s X :
  X_train_ s = Some X → n_train_ s = Some (length X) →
  decision_scores_ s = Some (zeros (length X)) →
  match check_parameter (n_neighbors s) 1 (Z.of_nat (length X)) with
  | Raise e => _fit_fast s = (Raise e, s)
  | Ok _ =>
      let s2 := set_tree_ {| tree_data := X |} s in
      match kneighbors X (n_neighbors s) with
      | Raise e => _fit_fast s = (Raise e, s2)
      | Ok ind_arr =>
          match mapM (score_step X X (index_row ind_arr))
                     (range (length X)) with
          | Ok raw => _fit_fast s = (Ok tt, set_decision_scores_ raw s2)
          | Raise e => ∃ d, _fit_fast s = (Raise e, set_decision_scores_ d s2)
          end
      end
  end.
Proof.
  intros HX Hn Hd.
  assert (_fit_fast s =
          match check_parameter (n_neighbors s) 1 (Z.of_nat (length X)) with
          | Raise e => (Raise e, s)
          | Ok _ =>
              match kneighbors X (n_neighbors s) with
              | Raise e => (Raise e, set_tree_ {| tree_data := X |} s)
              | Ok ind_arr =>
                  for_ (range (length X)) (_fit_fast_body ind_arr)
                       (set_tree_ {| tree_data := X |} s)
              end
          end) as ->.
  { unfold _fit_fast. step. step.
    destruct (check_parameter _ _ _) as [[]|e]; [|by step].
    step. step. step. step. step.
    cbn [n_neighbors set_tree_].
    destruct (kneighbors X (n_neighbors s)) as [ind_arr|e]; [|by step].
    step. by step. }
  destruct (check_parameter _ _ _) as [[]|e]; [|done]. cbn zeta.
  destruct (kneighbors X (n_neighbors s)) as [ind_arr|e]; [|done].
  set (s2 := set_tree_ {| tree_data := X |} s).
  pose proof (fit_loop (_fit_fast_body ind_arr) X (length X)
                (index_row ind_arr)
                (fun i s d HX _ Hd => fit_fast_body_step ind_arr i s X d HX Hd)
                (range (length X)) s2 _ HX Hn Hd) as Hloop.
  specialize (Hloop (range_lt _ _ (length_replicate _ _))).
  destruct (mapM _ _) as [raw|e] eqn:Hraw; [|done].
  rewrite Hloop, fill_zeros; [done|].
  apply mapM_Ok_length in Hraw. unfold range in Hraw.
  by rewrite Hraw, length_seq.
Qed.

(** [fit] up to the dispatch on the method. *)
Lemma fit_started X X' y s :
  check_array X = Ok X' →
  fit X y s =
  ((if String.eqb (method s) "fast" then _fit_fast
    else if String.eqb (method s) "default" then _fit_default
    else raise (ValueError [method s; "is not a valid method"%string]));;
   d ← attr "decision_scores_" decision_scores_;
   assign (set_decision_scores_ (negate d));;
   _process_decision_scores) (started X' y s).
Proof.
  intros HX. unfold fit. rewrite HX.
  step. unfold _set_n_classes. do 5 step. by step.
Qed.

(** Every way [fit] can end. *)
Lemma fit_cases X y s :
  match check_array X with
  | Raise e => fit X y s = (Raise e, s)
  | Ok X' =>
      let N := length X' in
      let s1 := started X' y s in
      if String.eqb (method s) "fast" then
        match check_parameter (n_neighbors s) 1 (Z.of_nat N) with
        | Raise e => fit X y s = (Raise e, s1)
        | Ok _ =>
            let s2 := set_tree_ {| tree_data := X' |} s1 in
            match kneighbors X' (n_neighbors s) with
            | Raise e => fit X y s = (Raise e, s2)
            | Ok ind_arr =>
                match mapM (score_step X' X' (index_row ind_arr)) (range N) with
                | Ok raw => fit X y s = (Ok tt, fitted raw s2)
                | Raise e =>
                    ∃ d, fit X y s = (Raise e, set_decision_scores_ d s2)
                end
            end
        end
      else if String.eqb (method s) "default" then
        match mapM (score_step X' X' (fit_default_candidates N)) (range N) with
        | Ok raw => fit X y s = (Ok tt, fitted raw s1)
        | Raise e => ∃ d, fit X y s = (Raise e, set_decision_scores_ d s1)
        end
      else
        fit X y s =
        (Raise (ValueError [method s; "is not a valid method"%string]), s1)
  end.
Proof.
  destruct (check_array X) as [X'|e] eqn:HX.
  2: { unfold fit. rewrite HX. by step. }
  rewrite (fit_started _ _ _ _ HX). cbn zeta.
  set (s1 := started X' y s).
  assert (X_train_ s1 = Some X') as H1 by done.
  assert (n_train_ s1 = Some (length X')) as H2 by done.
  assert (decision_scores_ s1 = Some (zeros (length X'))) as H3 by done.
  destruct (String.eqb (method s) "fast") eqn:Hfast;
    [|destruct (String.eqb (method s) "default") eqn:Hdefault].
  - pose proof (fit_fast_cases s1 X' H1 H2 H3) as Hf.
    change (n_neighbors s1) with (n_neighbors s) in Hf.
    destruct (check_parameter _ _ _) as [[]|e];
      [|by erewrite bind_Raise by exact Hf].
    cbn zeta in Hf.
    destruct (kneighbors X' (n_neighbors s)) as [ind_arr|e];
      [|by erewrite bind_Raise by exact Hf].
    destruct (mapM _ _) as [raw|e].
    + erewrite bind_Ok by exact Hf. by rewrite (fit_tail raw).
    + destruct Hf as [d Hf]. exists d. by erewrite bind_Raise by exact Hf.
  - pose proof (fit_default_cases s1 X' H1 H2 H3) as Hf.
    destruct (mapM _ _) as [raw|e].
    + erewrite bind_Ok by exact Hf. by rewrite (fit_tail raw).
    + destruct Hf as [d Hf]. exists d. by erewrite bind_Raise by exact Hf.
  - by erewrite bind_Raise by reflexivity.
Qed.

(** *** Scoring *)

Lemma decision_default_body_step Q i pred s Xt n :
  X_train_ s = Some Xt → n_train_ s = Some n →
  _decision_function_default_body Q i pred s =
  (w ← score_step Q Xt (fun _ => Ok (score_default_candidates n)) i;
   setitem pred i w, s).
Proof.
  intros HX Hn. unfold _decision_function_default_body, score_step.
  run (row Q i) as [curr_pt|e]. step. step. step.
  unfold score_default_candidates.
  run (_calculate_wocs curr_pt Xt (range n)) as [w|e]. by step.
Qed.

Lemma decision_fast_body_step Q ind_arr i pred s Xt :
  X_train_ s = Some Xt →
  _decision_function_fast_body Q ind_arr i pred s =
  (w ← score_step Q Xt (index_row ind_arr) i; setitem pred i w, s).
Proof.
  intros HX. unfold _decision_function_fast_body, score_step.
  run (row Q i) as [curr_pt|e]. step.
  run (index_row ind_arr i) as [X_ind|e]. step. step.
  run (_calculate_wocs curr_pt Xt X_ind) as [w|e]. by step.
Qed.

(** The loop over the query points, for a loop body that scores the point
    [i] and stores the result in the local array. *)
Lemma decision_loop (body : nat → list scalar → M (list scalar))
    (f : nat → result scalar) s :
  (∀ i pred, body i pred s = (w ← f i; setitem pred i w, s)) →
  ∀ m pre rest,
    length rest = m →
    for_local (seq (length pre) m) body (pre ++ rest) s =
    (ws ← mapM f (seq (length pre) m); Ok (pre ++ ws), s).
Proof.
  intros Hbody. induction m as [|m IH]; intros pre [|r rest]; try done.
  intros [= Hlen]. cbn [seq]. rewrite mapM_cons.
  change (for_local (length pre :: seq (S (length pre)) m) body
            (pre ++ r :: rest) s)
    with ((v' ← body (length pre) (pre ++ r :: rest);
           for_local (seq (S (length pre)) m) body v') s).
  pose proof (Hbody (length pre) (pre ++ r :: rest)) as Hstep.
  destruct (f (length pre)) as [w|e]; rewrite ?rbind_Ok, ?rbind_Raise in *.
  2: { by erewrite bind_Raise by exact Hstep. }
  unfold setitem in Hstep. rewrite decide_True in Hstep.
  2: { rewrite length_app. simpl. lia. }
  erewrite bind_Ok by exact Hstep.
  rewrite insert_app_r_alt, Nat.sub_diag by lia. cbn [insert list_insert].
  replace (pre ++ w :: rest) with ((pre ++ [w]) ++ rest)
    by (by rewrite <-app_assoc).
  replace (S (length pre)) with (length (pre ++ [w]))
    by (rewrite length_app; simpl; lia).
  rewrite IH by done.
  destruct (mapM f _) as [ws|e]; rewrite ?rbind_Ok, ?rbind_Raise; [|done].
  by rewrite <-app_assoc.
Qed.

Lemma decision_loop_zeros (body : nat → list scalar → M (list scalar))
    (f : nat → result scalar) s m :
  (∀ i pred, body i pred s = (w ← f i; setitem pred i w, s)) →
  for_local (range m) body (zeros m) s = (mapM f (range m), s).
Proof.
  intros Hbody.
  pose proof (decision_loop body f s Hbody m [] (zeros m)
                (length_replicate _ _)) as Hloop.
  simpl in Hloop. unfold range. rewrite Hloop.
  by destruct (mapM f (seq 0 m)).
Qed.

Lemma decision_default_spec Q s Xt n :
  X_train_ s = Some Xt → n_train_ s = Some n →
  _decision_function_default Q s =
  (mapM (score_step Q Xt (fun _ => Ok (score_default_candidates n)))
        (range (length Q)), s).
Proof.
  intros HX Hn. unfold _decision_function_default. cbn zeta.
  apply decision_loop_zeros. intros i pred.
  by apply decision_default_body_step.
Qed.

Lemma check_is_fitted_Ok attributes s :
  Forall (fun a => hasattr s a = true) attributes →
  check_is_fitted attributes s = (Ok tt, s).
Proof.
  intros Hall. unfold check_is_fitted.
  replace (filter _ attributes) with (@nil string); [done|].
  symmetry. induction Hall as [|a l Ha _ IH]; [done|].
  rewrite filter_cons, decide_False; [done|]. by rewrite Ha.
Qed.

Lemma check_is_fitted_Raise attributes s :
  filter (fun a => hasattr s a = false) attributes ≠ [] →
  check_is_fitted attributes s =
  (Raise (NotFittedError (filter (fun a => hasattr s a = false) attributes)),
   s).
Proof. unfold check_is_fitted. by destruct (filter _ _). Qed.

Lemma decision_fast_spec Q s Xt t :
  X_train_ s = Some Xt → tree_ s = Some t →
  _decision_function_fast Q s =
  (ind_arr ← query t Q (n_neighbors s);
   mapM (score_step Q Xt (index_row ind_arr)) (range (length Q)), s).
Proof.
  intros HX Ht. unfold _decision_function_fast. cbn zeta.
  erewrite bind_Ok; last first.
  { apply check_is_fitted_Ok. repeat constructor.
    unfold hasattr. simpl. rewrite Ht. by apply bool_decide_eq_true. }
  step. step.
  run (query t Q (n_neighbors s)) as [ind_arr|e].
  step. apply decision_loop_zeros. intros i pred.
  by apply decision_fast_body_step.
Qed.

(** *** Methods that do not assign *)

Lemma read_only_ret {A} (a : A) : read_only (mret a).
Proof. by intros s. Qed.

Lemma read_only_lift {A} (r : result A) : read_only (lift r).
Proof. by intros s. Qed.

Lemma read_only_attr {A} name (proj : ABOD → option A) :
  read_only (attr name proj).
Proof. intros s. unfold attr. by destruct (proj s). Qed.

Lemma read_only_self {A} (proj : ABOD → A) : read_only (self_ proj).
Proof. by intros s. Qed.

Lemma read_only_check_is_fitted attributes :
  read_only (check_is_fitted attributes).
Proof. intros s. unfold check_is_fitted. by destruct (filter _ _). Qed.

Lemma read_only_bind {A B} (m : M A) (k : A → M B) :
  read_only m → (∀ a, read_only (k a)) → read_only (m ≫= k).
Proof.
  intros Hm Hk s. unfold mbind, M_bind. specialize (Hm s).
  destruct (m s) as [[a|e] s']; simpl in *; subst; [apply Hk|done].
Qed.

Lemma read_only_if {A} (b : bool) (m1 m2 : M A) :
  read_only m1 → read_only m2 → read_only (if b then m1 else m2).
Proof. by destruct b. Qed.

Lemma read_only_for_local {A V} (l : list A) (body : A → V → M V) v :
  (∀ x v, read_only (body x v)) → read_only (for_local l body v).
Proof.
  intros Hbody. revert v. induction l as [|x l IH]; intros v.
  - apply read_only_ret.
  - apply read_only_bind; [apply Hbody | apply IH].
Qed.

Create HintDb read_only.
#[local] Hint Resolve read_only_ret read_only_lift read_only_attr
  read_only_self read_only_check_is_fitted read_only_if : read_only.

Ltac read_only :=
  repeat first
    [ progress intros
    | apply read_only_bind
    | apply read_only_for_local
    | solve [auto with read_only] ].

Lemma read_only_decision_function_default Q :
  read_only (_decision_function_default Q).
Proof.
  unfold _decision_function_default, _decision_function_default_body.
  read_only.
Qed.

Lemma read_only_decision_function_fast Q :
  read_only (_decision_function_fast Q).
Proof.
  unfold _decision_function_fast, _decision_function_fast_body. read_only.
Qed.

Lemma read_only_decision_function Q : read_only (decision_function Q).
Proof.
  unfold decision_function. read_only.
  apply read_only_if; read_only;
    auto using read_only_decision_function_fast,
               read_only_decision_function_default.
Qed.

End DetectorFacts.

(** ** The reference instance honours the contract *)

Lemma insert_by_length key i l : length (insert_by key i l) = S (length l).
Proof.
  induction l as [|j l IH]; simpl; [done|].
  destruct (Qle_bool _ _); simpl; by rewrite ?IH.
Qed.

Lemma elem_of_insert_by key i l x : x ∈ insert_by key i l → x = i ∨ x ∈ l.
Proof.
  induction l as [|j l IH]; simpl.
  - intros ->%list_elem_of_singleton. by left.
  - destruct (Qle_bool _ _).
    + intros [->|Hx]%elem_of_cons; [right; left|].
      destruct (IH Hx); [by left|right; by right].
    + intros [->|Hx]%elem_of_cons; [by left|by right].
Qed.

Lemma argsort_fold key l acc :
  length (foldl (fun acc i => insert_by key i acc) acc l)
  = (length acc + length l)%nat ∧
  ∀ x, x ∈ foldl (fun acc i => insert_by key i acc) acc l → x ∈ acc ∨ x ∈ l.
Proof.
  revert acc. induction l as [|i l IH]; intros acc; simpl.
  - split; [lia|by left].
  - destruct (IH (insert_by key i acc)) as [Hlen Hin]. split.
    + rewrite Hlen, insert_by_length. lia.
    + intros x Hx. destruct (Hin x Hx) as [Hacc|Hl]; [|right; by right].
      destruct (elem_of_insert_by _ _ _ _ Hacc) as [->|?];
        [right; left|by left].
Qed.

Lemma argsort_length keys : length (argsort keys) = length keys.
Proof.
  unfold argsort.
  destruct (argsort_fold (fun j => keys !!! j) (range (length keys)) [])
    as [-> _].
  unfold range. by rewrite length_seq.
Qed.

Lemma elem_of_argsort keys x : x ∈ argsort keys → (x < length keys)%nat.
Proof.
  unfold argsort. intros Hx.
  destruct (argsort_fold (fun j => keys !!! j) (range (length keys)) [])
    as [_ Hin].
  destruct (Hin x Hx) as [?%elem_of_nil|Hr%elem_of_seq]; [done|lia].
Qed.

Lemma nearest_shape data k q :
  (k ≤ length data)%nat →
  length (nearest data k q) = k ∧ in_range data (nearest data k q).
Proof.
  intros Hk. unfold nearest. split.
  - rewrite length_take, argsort_length, length_fmap. lia.
  - apply Forall_forall. intros x Hx%subseteq_take%elem_of_argsort.
    by rewrite length_fmap in Hx.
Qed.

Lemma is_2d_spec X :
  is_2d X = true → X ≠ [] ∧ ∃ D, Forall (fun r => length r = D) X.
Proof.
  destruct X as [|r X]; [done|]. unfold is_2d.
  intros Hall. split; [done|]. exists (length r).
  apply Forall_forall. intros r' Hr'.
  rewrite forallb_forall in Hall.
  apply Nat.eqb_eq, Hall. by apply list_elem_of_In.
Qed.

#[export] Instance brute_force_contract : Contract brute_force.
Proof.
  split.
  - intros X X'. simpl. destruct (is_2d X) eqn:H2d; [|done].
    intros [= <-]. by apply is_2d_spec.
  - intros X k Hk. simpl. rewrite bool_decide_eq_true_2 by lia. eauto.
  - intros X k ind_arr. simpl. case_bool_decide as Hk; [|done].
    intros [= <-]. split; [by rewrite length_fmap|].
    apply Forall_fmap, Forall_forall. intros q _. simpl.
    apply nearest_shape. lia.
Qed.

(** ** More on [mapM] in the error monad *)

Lemma mapM_ext_in {A B} (f g : A → result B) (l : list A) :
  (∀ x, x ∈ l → f x = g x) → mapM f l = mapM g l.
Proof.
  induction l as [|x l IH]; intros Hfg; [done|].
  rewrite !mapM_cons, Hfg, IH; [done| |left].
  intros z Hz. apply Hfg. by right.
Qed.

Lemma mapM_const {A B} (f : A → result B) (l : list A) (c : B) :
  (∀ x, x ∈ l → f x = Ok c) → mapM f l = Ok (replicate (length l) c).
Proof.
  induction l as [|x l IH]; intros Hf; [done|].
  rewrite mapM_cons, Hf, rbind_Ok, IH; [done| |left].
  intros z Hz. apply Hf. by right.
Qed.

Lemma mapM_Ok_exists {A B} (f : A → result B) (l : list A) :
  (∀ x, x ∈ l → ∃ w, f x = Ok w) → ∃ ws, mapM f l = Ok ws.
Proof.
  induction l as [|x l IH]; intros Hf; [by eexists|].
  destruct (Hf x) as [w Hw]; [left|].
  destruct IH as [ws Hws]; [intros z Hz; apply Hf; by right|].
  exists (w :: ws). by rewrite mapM_cons, Hw, rbind_Ok, Hws.
Qed.

Lemma omap_replicate_None {A} (n : nat) :
  omap id (replicate n (@None A)) = [].
Proof. induction n as [|n IH]; [done|]. simpl. apply IH. Qed.

(** ** Degenerate candidate lists *)

Lemma calculate_wocs_few_candidates P X C :
  (length C < 2)%nat → _calculate_wocs P X C = Ok NaN.
Proof.
  intros Hlen. by rewrite calculate_wocs_outcomes, pairs_length.
Qed.

Lemma calculate_wocs_all_skipped P X C :
  in_range X C → (∀ p, p ∈ pairs C → skipped P X p = true) →
  _calculate_wocs P X C = Ok NaN.
Proof.
  intros Hin Hskip. rewrite calculate_wocs_outcomes.
  rewrite (mapM_const _ _ None).
  - by rewrite rbind_Ok, omap_replicate_None.
  - intros [i j] Hp.
    pose proof (pairs_in_range (fun i => (i < length X)%nat) C Hin) as Hr.
    rewrite Forall_forall in Hr. destruct (Hr _ Hp).
    apply pair_outcome_skipped; auto.
Qed.

(** ** Fitting in fast mode under the contract *)

Lemma same_dimension_row (X : matrix) D P i :
  Forall (fun r => length r = D) X → X !! i = Some P → same_dimension P X.
Proof.
  intros Hall Hi. unfold same_dimension.
  rewrite (Forall_lookup_1 _ _ _ _ Hall Hi). done.
Qed.

Lemma check_parameter_Ok k n :
  (1 ≤ k ≤ n)%Z → check_parameter k 1 n = Ok tt.
Proof. intros Hk. unfold check_parameter. by rewrite bool_decide_eq_true_2. Qed.

Lemma check_parameter_Raise k n :
  ¬ (1 ≤ k ≤ n)%Z →
  check_parameter k 1 n = Raise (ValueError ["parameter is not in the range"%string]).
Proof. intros Hk. unfold check_parameter. by rewrite bool_decide_eq_false_2. Qed.

Section FastUnderContract.
Context {E : Collaborators} {HE : Contract E}.

Lemma fit_fast_succeeds X X' y s :
  String.eqb (method s) "fast" = true → check_array X = Ok X' →
  (1 ≤ n_neighbors s < Z.of_nat (length X'))%Z →
  ∃ ind_arr raw,
    kneighbors X' (n_neighbors s) = Ok ind_arr ∧
    mapM (score_step X' X' (index_row ind_arr)) (range (length X')) = Ok raw ∧
    fit X y s =
    (Ok tt, fitted raw (set_tree_ {| tree_data := X' |} (started X' y s))).
Proof.
  intros Hfast HX Hk.
  destruct (check_array_2d _ _ HX) as [_ [D H2d]].
  destruct (kneighbors_total X' _ Hk) as [ind_arr Hind].
  destruct (kneighbors_shape _ _ _ Hind) as [Hrows Hshape].
  destruct (mapM_Ok_exists (score_step X' X' (index_row ind_arr))
              (range (length X'))) as [raw Hraw].
  { intros i Hi%elem_of_seq.
    destruct (lookup_lt_is_Some_2 X' i) as [P HP]; [lia|].
    destruct (lookup_lt_is_Some_2 ind_arr i) as [C HC]; [lia|].
    unfold score_step, row, index_row. rewrite HP, HC, !rbind_Ok.
    eexists. apply calculate_wocs_well_formed.
    - by destruct (Forall_lookup_1 _ _ _ _ Hshape HC).
    - by eapply same_dimension_row. }
  exists ind_arr, raw. split; [done|]. split; [done|].
  pose proof (fit_cases X y s) as Hfit.
  rewrite HX in Hfit. cbn zeta in Hfit.
  rewrite Hfast, check_parameter_Ok, Hind, Hraw in Hfit; [done|lia].
Qed.

Lemma fit_fast_one_neighbor X X' :
  check_array X = Ok X' → (2 ≤ length X')%nat →
  ∃ ind_arr,
    kneighbors X' 1 = Ok ind_arr ∧
    Forall (fun C => length C = 1%nat) ind_arr ∧
    mapM (score_step X' X' (index_row ind_arr)) (range (length X'))
    = Ok (replicate (length X') NaN).
Proof.
  intros HX Hlen.
  assert (1 ≤ 1 < Z.of_nat (length X'))%Z as Hrange by lia.
  destruct (kneighbors_total X' _ Hrange) as [ind_arr Hind].
  destruct (kneighbors_shape _ _ _ Hind) as [Hrows Hshape].
  exists ind_arr. split; [done|]. split.
  { eapply Forall_impl; [exact Hshape|]. by intros C [-> _]. }
  replace (replicate (length X') NaN)
    with (replicate (length (range (length X'))) NaN)
    by (unfold range; by rewrite length_seq).
  apply mapM_const. intros i Hi%elem_of_seq.
  destruct (lookup_lt_is_Some_2 X' i) as [P HP]; [lia|].
  destruct (lookup_lt_is_Some_2 ind_arr i) as [C HC]; [lia|].
  unfold score_step, row, index_row. rewrite HP, HC, !rbind_Ok.
  apply calculate_wocs_few_candidates.
  destruct (Forall_lookup_1 _ _ _ _ Hshape HC) as [-> _]. simpl. lia.
Qed.

End FastUnderContract.

(** ** How [fit] and [decision_function] end *)

Section Outcomes.
Context {E : Collaborators}.

Lemma fit_Ok_inv X y s s' :
  fit X y s = (Ok tt, s') →
  ∃ X', check_array X = Ok X' ∧
    ((String.eqb (method s) "fast" = true ∧
      ∃ ind_arr raw,
        kneighbors X' (n_neighbors s) = Ok ind_arr ∧
        mapM (score_step X' X' (index_row ind_arr)) (range (length X'))
        = Ok raw ∧
        s' = fitted raw (set_tree_ {| tree_data := X' |} (started X' y s))) ∨
     (String.eqb (method s) "fast" = false ∧
      String.eqb (method s) "default" = true ∧
      ∃ raw,
        mapM (score_step X' X' (fit_default_candidates (length X')))
             (range (length X')) = Ok raw ∧
        s' = fitted raw (started X' y s))).
Proof.
  intros Hfit. pose proof (fit_cases X y s) as Hc.
  destruct (check_array X) as [X'|e]; [|congruence].
  exists X'. split; [done|]. cbn zeta in Hc.
  destruct (String.eqb (method s) "fast");
    [left; split; [done|]
    |right; split; [done|];
     destruct (String.eqb (method s) "default"); [split; [done|]|congruence]].
  - destruct (check_parameter _ _ _) as [[]|e]; [|congruence].
    destruct (kneighbors X' (n_neighbors s)) as [ind_arr|e] eqn:Hind;
      [|congruence].
    destruct (mapM _ _) as [raw|e] eqn:Hraw; [|destruct Hc; congruence].
    exists ind_arr, raw. split; [done|]. split; [done|]. congruence.
  - destruct (mapM _ _) as [raw|e] eqn:Hraw; [|destruct Hc; congruence].
    exists raw. split; [done|]. congruence.
Qed.

(** A failed [fit] leaves [threshold_] and [labels_] as they were. *)
Lemma fit_Raise_threshold_labels X y s e s' :
  fit X y s = (Raise e, s') →
  threshold_ s' = threshold_ s ∧ labels_ s' = labels_ s.
Proof.
  intros Hfit. pose proof (fit_cases X y s) as Hc.
  destruct (check_array X) as [X'|e0];
    [|rewrite Hc in Hfit; by simplify_eq].
  cbn zeta in Hc.
  destruct (String.eqb (method s) "fast");
    [|destruct (String.eqb (method s) "default")].
  - destruct (check_parameter _ _ _) as [[]|e1];
      [|rewrite Hc in Hfit; by simplify_eq].
    destruct (kneighbors X' (n_neighbors s)) as [ind_arr|e1];
      [|rewrite Hc in Hfit; by simplify_eq].
    destruct (mapM _ _) as [raw|e1]; [congruence|].
    destruct Hc as [d Hc]. rewrite Hc in Hfit. by simplify_eq.
  - destruct (mapM _ _) as [raw|e1]; [congruence|].
    destruct Hc as [d Hc]. rewrite Hc in Hfit. by simplify_eq.
  - rewrite Hc in Hfit. by simplify_eq.
Qed.

Lemma check_is_fitted_inv attributes s r s' :
  check_is_fitted attributes s = (Ok r, s') →
  Forall (fun a => hasattr s a = true) attributes.
Proof.
  unfold check_is_fitted.
  destruct (filter _ attributes) eqn:Hf; [|done]. intros _.
  apply Forall_forall. intros a Ha.
  destruct (hasattr s a) eqn:Hattr; [done|].
  assert (a ∈ filter (fun a => hasattr s a = false) attributes) as Hin
    by (by apply list_elem_of_filter).
  rewrite Hf in Hin. by apply elem_of_nil in Hin.
Qed.

Lemma decision_function_fitted Q s Xt :
  X_train_ s = Some Xt → is_Some (n_train_ s) →
  is_Some (decision_scores_ s) → is_Some (threshold_ s) →
  is_Some (labels_ s) →
  decision_function Q s =
  (Q' ← check_array Q; raw ← raw_scores s Xt Q'; Ok (negate raw), s).
Proof.
  intros HX [n Hn] [d Hd] [t Ht] [l Hl]. unfold decision_function.
  erewrite bind_Ok; last first.
  { apply check_is_fitted_Ok. repeat constructor; unfold hasattr; simpl;
      rewrite ?HX, ?Hn, ?Hd, ?Ht, ?Hl; by apply bool_decide_eq_true. }
  run (check_array Q) as [Q'|e]. step. step. unfold raw_scores.
  destruct (String.eqb (method s) "fast").
  - destruct (tree_ s) as [tr|] eqn:Htree.
    + erewrite bind_Ok_or_Raise by (by apply decision_fast_spec).
      destruct (query tr Q' (n_neighbors s)) as [ind_arr|e];
        rewrite ?rbind_Ok, ?rbind_Raise; [|done].
      by destruct (mapM _ _).
    + unfold _decision_function_fast. erewrite bind_Raise; [done|].
      erewrite bind_Raise; [done|].
      rewrite check_is_fitted_Raise.
      * unfold hasattr. simpl. rewrite Htree. done.
      * unfold hasattr. simpl. by rewrite Htree.
  - rewrite Hn.
    erewrite bind_Ok_or_Raise by (by apply decision_default_spec).
    by destruct (mapM _ _).
Qed.

End Outcomes.

(** ** Candidate lists of the two modes *)

Lemma pairs_filter {A} (Q : A → Prop) `{!∀ x, Decision (Q x)} (l : list A) :
  pairs (filter Q l) = filter (fun p => Q p.1 ∧ Q p.2) (pairs l).
Proof.
  induction l as [|x l IH]; [done|].
  cbn [pairs]. rewrite filter_app, <-IH, filter_cons.
  assert (∀ l', filter (fun p => Q p.1 ∧ Q p.2) (pair x <$> l')
                = if decide (Q x) then pair x <$> filter Q l' else []) as Hrow.
  { induction l' as [|z l' IH']; [by destruct (decide (Q x))|].
    rewrite fmap_cons, !filter_cons, IH'. simpl.
    destruct (decide (Q x)), (decide (Q z));
      rewrite ?decide_True, ?decide_False by tauto; done. }
  change (map (pair x) l) with (pair x <$> l). rewrite Hrow.
  by destruct (decide (Q x)).
Qed.




Lemma list_remove_spec (l : list nat) (x : nat) :
  x ∈ l → NoDup l →
  ∃ C, list_remove l x = Ok C ∧ ∀ j, j ∈ C ↔ j ∈ l ∧ j ≠ x.
Proof.
  induction l as [|y l IH]; [by intros ?%elem_of_nil|].
  intros Hx Hnd. apply NoDup_cons in Hnd as [Hy Hnd]. simpl.
  destruct (Nat.eqb_spec y x) as [->|Hne].
  - exists l. split; [done|]. intros j. rewrite elem_of_cons.
    split; [|tauto]. intros Hj. split; [by right|]. by intros ->.
  - apply elem_of_cons in Hx as [->|Hx]; [done|].
    destruct (IH Hx Hnd) as (C & -> & HC).
    exists (y :: C). split; [done|]. intros j.
    rewrite !elem_of_cons, HC. split; [|tauto].
    intros [->|[? ?]]; [by split; [left|]|tauto].
Qed.

Lemma fit_default_candidates_spec (n i : nat) :
  (i < n)%nat →
  ∃ C, fit_default_candidates n i = Ok C ∧
       ∀ j, j ∈ C ↔ (j < n)%nat ∧ j ≠ i.
Proof.
  intros Hi. unfold fit_default_candidates, range.
  destruct (list_remove_spec (seq 0 n) i) as (C & HC & Hin).
  - apply elem_of_seq. lia.
  - apply NoDup_seq.
  - exists C. split; [done|]. intros j. rewrite Hin, elem_of_seq. lia.
Qed.

Lemma mapM_rows (g : list Qc → result scalar) (pre Q : matrix) :
  mapM (fun i => q ← row (pre ++ Q) i; g q) (seq (length pre) (length Q))
  = mapM g Q.
Proof.
  revert pre. induction Q as [|q Q IH]; intros pre; [done|].
  cbn [length seq]. rewrite !mapM_cons.
  assert (row (pre ++ q :: Q) (length pre) = Ok q) as ->.
  { unfold row. by rewrite lookup_app_r, Nat.sub_diag by lia. }
  rewrite rbind_Ok.
  replace (pre ++ q :: Q) with ((pre ++ [q]) ++ Q) by (by rewrite <-app_assoc).
  replace (S (length pre)) with (length (pre ++ [q]))
    by (rewrite length_app; simpl; lia).
  by rewrite IH.
Qed.

Lemma mapM_score_rows (Q Xt : matrix) (C : list nat) :
  mapM (score_step Q Xt (fun _ => Ok C)) (range (length Q))
  = mapM (fun q => _calculate_wocs q Xt C) Q.
Proof. apply (mapM_rows (fun q => _calculate_wocs q Xt C) [] Q). Qed.

(** * The statistic *)

(** ** The statistic over numpy's arithmetic *)

Lemma div_eucl_mul (a b : Z) : b ≠ 0%Z → Z.div_eucl (a * b) b = (a, 0%Z).
Proof.
  intros Hb.
  pose proof (Z.div_mul a b Hb) as Hq. pose proof (Z.mod_mul a b Hb) as Hr.
  unfold Z.div, Z.modulo in Hq, Hr.
  destruct (Z.div_eucl (a * b) b) as [q r]. simpl in *. by subst.
Qed.

Section NumericFacts.
Context {N : Numeric.Numpy}.
Implicit Types (P : list Numeric.elem) (X : list (list Numeric.elem)).
Implicit Types (C : list nat) (acc : list Numeric.num).

Lemma numeric_wocs_step_kept P X acc i j :
  (i < length X)%nat → (j < length X)%nat →
  Numeric.wocs_step P X acc [i; j] =
  if Numeric.skipped P X (i, j) then Ok acc
  else w ← Numeric.weighted_cosine P X (i, j); Ok (acc ++ [w]).
Proof.
  intros Hi Hj.
  destruct (lookup_lt_is_Some_2 X i Hi) as [a Ha].
  destruct (lookup_lt_is_Some_2 X j Hj) as [b Hb].
  unfold Numeric.wocs_step, Numeric.skipped, Numeric.coincident,
    Numeric.weighted_cosine, Numeric.row.
  cbn [fst snd]. rewrite Ha, Hb, !rbind_Ok.
  destruct (Numeric.np_array_equal a P || Numeric.np_array_equal b P);
    [done|].
  destruct (Numeric.np_subtract a P) as [a_curr|]; [|done].
  destruct (Numeric.np_subtract b P) as [b_curr|]; [|done].
  rewrite !rbind_Ok. by destruct (Numeric.np_dot a_curr b_curr).
Qed.

Lemma numeric_wocs_loop_kept P X acc (ps : list (nat * nat)) :
  Forall (fun p => (p.1 < length X)%nat ∧ (p.2 < length X)%nat) ps →
  Numeric.wocs_loop P X acc (pair_to_list <$> ps) =
  vs ← mapM (Numeric.weighted_cosine P X)
            (filter (fun p => Numeric.skipped P X p = false) ps);
  Ok (acc ++ vs).
Proof.
  intros Hps. revert acc.
  induction Hps as [|[i j] ps [Hi Hj] _ IH]; intros acc.
  { simpl. by rewrite app_nil_r. }
  rewrite fmap_cons, filter_cons.
  change (Numeric.wocs_loop P X acc (pair_to_list (i, j) :: (pair_to_list <$> ps)))
    with (acc' ← Numeric.wocs_step P X acc [i; j];
          Numeric.wocs_loop P X acc' (pair_to_list <$> ps)).
  rewrite numeric_wocs_step_kept by done.
  destruct (Numeric.skipped P X (i, j)).
  - rewrite decide_False by done. by rewrite rbind_Ok, IH.
  - rewrite decide_True by done. rewrite mapM_cons.
    destruct (Numeric.weighted_cosine P X (i, j)) as [w|]; [|done].
    rewrite !rbind_Ok, IH.
    destruct (mapM _ _) as [vs|]; [|done].
    rewrite !rbind_Ok. by rewrite <-app_assoc.
Qed.

Lemma numeric_var_population (vs : list Numeric.num) :
  Numeric.var vs 0 = Numeric.population_variance vs.
Proof.
  unfold Numeric.var, Numeric.population_variance.
  by rewrite Nat.sub_0_r, <-list_fmap_compose.
Qed.

Lemma numeric_wocs_loop_candidates P X C :
  Numeric.in_range X C →
  Numeric.wocs_loop P X [] (combinations C 2) =
  mapM (Numeric.weighted_cosine P X) (Numeric.kept P X C).
Proof.
  intros Hin. rewrite combinations_2, numeric_wocs_loop_kept.
  - unfold Numeric.kept. by destruct (mapM _ _).
  - by apply (pairs_in_range (fun i => (i < length X)%nat)).
Qed.

Lemma numeric_calculate_wocs_kept P X C :
  Numeric.in_range X C →
  Numeric._calculate_wocs P X C =
  vs ← mapM (Numeric.weighted_cosine P X) (Numeric.kept P X C);
  Ok (Numeric.var vs 0).
Proof.
  intros Hin. unfold Numeric._calculate_wocs.
  by rewrite numeric_wocs_loop_candidates.
Qed.

Lemma numeric_calculate_wocs_few P X C :
  (length C < 2)%nat → Numeric._calculate_wocs P X C = Ok (Numeric.var [] 0).
Proof.
  intros Hlen. unfold Numeric._calculate_wocs.
  by rewrite combinations_2, pairs_length.
Qed.

Lemma numeric_skipped_sym P X i j :
  Numeric.skipped P X (i, j) = Numeric.skipped P X (j, i).
Proof. unfold Numeric.skipped. apply orb_comm. Qed.

Lemma unordered_sym i j : unordered (i, j) = unordered (j, i).
Proof. unfold unordered. simpl. f_equal; lia. Qed.

Lemma numeric_kept_omap P X (ps : list (nat * nat)) :
  unordered <$> filter (fun p => Numeric.skipped P X p = false) ps =
  omap id ((fun p => if Numeric.skipped P X p then None
                     else Some (unordered p)) <$> ps).
Proof.
  induction ps as [|p ps IH]; [done|].
  rewrite fmap_cons, filter_cons. cbn [omap list_omap].
  destruct (Numeric.skipped P X p).
  - by rewrite decide_False by done.
  - rewrite decide_True by done. rewrite fmap_cons, IH. done.
Qed.

Lemma numeric_kept_Permutation P X C C' :
  C ≡ₚ C' →
  unordered <$> Numeric.kept P X C ≡ₚ unordered <$> Numeric.kept P X C'.
Proof.
  intros Hp. unfold Numeric.kept. rewrite !numeric_kept_omap.
  apply omap_Permutation, pairs_Permutation; [|done].
  intros x y. by rewrite numeric_skipped_sym, unordered_sym.
Qed.

End NumericFacts.

Lemma filter_none {A} (Q : A → Prop) `{!∀ x, Decision (Q x)} (l : list A) :
  Forall (fun x => ¬ Q x) l → filter Q l = [].
Proof.
  induction 1 as [|x l Hx _ IH]; [done|]. by rewrite filter_cons_False.
Qed.

(** The model over exact rationals is the instance [exact]. *)
Lemma wocs_loop_exact (P : point) (X : matrix) (acc : list scalar) l :
  Numeric.wocs_loop (N:=exact) P X acc l = wocs_loop P X acc l.
Proof.
  revert acc. induction l as [|p l IH]; intros acc; [done|].
  simpl. change (Numeric.wocs_step (N:=exact) P X acc p)
    with (wocs_step P X acc p).
  destruct (wocs_step P X acc p) as [acc'|]; [|done].
  rewrite !rbind_Ok. apply IH.
Qed.

Lemma var_exact (l : list scalar) : Numeric.var (N:=exact) l 0 = var l.
Proof. unfold Numeric.var. by rewrite Nat.sub_0_r. Qed.

Lemma calculate_wocs_exact (P : point) (X : matrix) (C : list nat) :
  Numeric._calculate_wocs (N:=exact) P X C = _calculate_wocs P X C.
Proof.
  unfold Numeric._calculate_wocs, _calculate_wocs.
  rewrite wocs_loop_exact. change (@Numeric.num exact) with scalar.
  destruct (wocs_loop P X [] (combinations C 2)) as [l|]; [|done].
  rewrite !rbind_Ok. by rewrite var_exact.
Qed.

#[export] Instance exact_variance : Numeric.Variance exact.
Proof.
  split.
  - reflexivity.
  - intros [q|]; [intros _|done].
    rewrite var_exact. change [Fin q] with (Fin <$> [q]).
    rewrite var_Fin. simpl. by rewrite population_variance_singleton.
Qed.

(** Division by 1.0 and the difference of a double with itself are exact. *)
Lemma b64_div_one s m e :
  bounded 53 1024 m e = true →
  b64_div (S754_finite s m e) (b64 1 0) = S754_finite s m e.
Proof.
  unfold bounded, canonical_mantissa. intros [Hc He]%andb_prop.
  apply Z.eqb_eq in Hc. apply Z.leb_le in He.
  unfold fexp, emin in Hc.
  change (b64 1 0) with (S754_finite false 4503599627370496 (-52)).
  unfold b64_div, SFdiv, SFdiv_core_binary.
  change (Zdigits2 (Z.pos 4503599627370496)) with 53%Z.
  change (Zdigits2 (Z.pos m)) with (Z.pos (digits2_pos m)).
  unfold fexp, emin. rewrite xorb_false_r.
  destruct (decide (e = -1074)%Z) as [->|Hne].
  - replace ((Z.pos (digits2_pos m) + -1074 - (53 + -52) - 53)
               `max` (3 - 1024 - 53))%Z with (-1074)%Z by lia.
    change ((-1074) `min` (-1074 - -52))%Z with (-1074)%Z.
    change (-1074 - -52 - -1074)%Z with 52%Z.
    cbv iota beta.
    rewrite Z.shiftl_mul_pow2 by lia.
    change (2 ^ 52)%Z with 4503599627370496%Z.
    change IntDef.Z.div_eucl with Z.div_eucl.
    rewrite div_eucl_mul by lia.
    change (new_location 4503599627370496 0) with loc_Exact.
    unfold binary_round_aux, shr_fexp, fexp, emin.
    change (Zdigits2 (Z.pos m)) with (Z.pos (digits2_pos m)).
    rewrite Hc. change (-1074 - -1074)%Z with 0%Z.
    cbn [shr shr_record_of_loc round_nearest_even shr_m loc_of_shr_record].
    change (Zdigits2 (Z.pos m)) with (Z.pos (digits2_pos m)).
    rewrite Hc. change (-1074 - -1074)%Z with 0%Z.
    cbn [shr shr_record_of_loc round_nearest_even shr_m loc_of_shr_record].
    done.
  - assert (Z.pos (digits2_pos m) = 53%Z) as Hd by lia.
    rewrite Hd.
    replace ((53 + e - (53 + -52) - 53) `max` (3 - 1024 - 53))%Z
      with (e - 1)%Z by lia.
    replace ((e - 1) `min` (e - -52))%Z with (e - 1)%Z by lia.
    replace (e - -52 - (e - 1))%Z with 53%Z by lia.
    cbv iota beta.
    rewrite Z.shiftl_mul_pow2 by lia.
    change (2 ^ 53)%Z with (2 * 4503599627370496)%Z.
    rewrite Z.mul_assoc.
    change IntDef.Z.div_eucl with Z.div_eucl.
    rewrite div_eucl_mul by lia.
    change (new_location 4503599627370496 0) with loc_Exact.
    unfold binary_round_aux, shr_fexp, fexp, emin.
    change (Z.pos m * 2)%Z with (Z.pos (m * 2)).
    rewrite Pos.mul_comm. change (2 * m)%positive with (m~0)%positive.
    change (Zdigits2 (Z.pos m~0)) with (Z.pos (Pos.succ (digits2_pos m))).
    rewrite Pos2Z.inj_succ, Hd.
    replace ((Z.succ 53 + (e - 1) - 53) `max` (3 - 1024 - 53) - (e - 1))%Z
      with 1%Z by lia.
    cbn [shr shr_record_of_loc round_nearest_even shr_m loc_of_shr_record
         SpecFloat.iter_pos shr_1 orb].
    change (Zdigits2 (Z.pos m)) with (Z.pos (digits2_pos m)).
    rewrite Hd.
    replace ((53 + (e - 1 + 1) - 53) `max` (3 - 1024 - 53) - (e - 1 + 1))%Z
      with 0%Z by lia.
    cbn [shr shr_record_of_loc round_nearest_even shr_m loc_of_shr_record].
    replace (e - 1 + 1)%Z with e by lia.
    by rewrite (proj2 (Z.leb_le _ _)) by lia.
Qed.

Lemma b64_sub_diag s m e :
  b64_sub (S754_finite s m e) (S754_finite s m e) = S754_zero false.
Proof. unfold b64_sub, SFsub. by rewrite Z.sub_diag. Qed.

#[export] Instance binary64_variance : Numeric.Variance binary64.
Proof.
  split.
  - reflexivity.
  - intros [[]| | |s m e] Hv; try done.
    unfold Numeric.var. cbn -[b64_div b64_sub b64_mul b64].
    change (b64_sum [S754_finite s m e]) with (S754_finite s m e).
    rewrite b64_div_one, b64_sub_diag by done. reflexivity.
Qed.

(** C1.  For a pivot [P], a matrix [X] and a duplicate-free list [C] of
    indices into [X], whatever the arithmetic of numpy: the loop goes
    through the pairs of [combinations(C, 2)], in which every unordered
    pair of distinct members of [C] occurs exactly once; it skips a pair
    when [X[i]] or [X[j]] equals [P] in every coordinate and collects
    [dot(a, b) / |a|^2 / |b|^2] with [a = X[i] - P], [b = X[j] - P] for
    every other pair, one value per pair; and the result is the population
    variance of the collected values, the divisor being their count. *)
Theorem calculate_wocs_pairs_variance {N : Numeric.Numpy}
    (P : list Numeric.elem) (X : list (list Numeric.elem)) (C : list nat) :
  NoDup C → Numeric.in_range X C →
  combinations C 2 = pair_to_list <$> pairs C ∧
  each_pair_once C (combinations C 2) ∧
  Numeric.wocs_loop P X [] (combinations C 2) =
    mapM (Numeric.weighted_cosine P X) (Numeric.kept P X C) ∧
  Numeric._calculate_wocs P X C =
    (vs ← mapM (Numeric.weighted_cosine P X) (Numeric.kept P X C);
     Ok (Numeric.population_variance vs)).
Proof.
  intros Hnd Hin. split; [apply combinations_2|].
  split; [by apply each_pair_once_NoDup|].
  split; [by apply numeric_wocs_loop_candidates|].
  rewrite numeric_calculate_wocs_kept by done.
  destruct (mapM _ _) as [vs|]; [|done].
  by rewrite !rbind_Ok, numeric_var_population.
Qed.

Lemma calculate_wocs_pairs_variance_witness :
  let P := [b64 0 0; b64 0 0] in
  let X := [[b64 1 0; b64 0 0]; [b64 0 0; b64 2 0]; [b64 0 0; b64 0 0];
            [b64 3 0; b64 3 0]] in
  let C := [3; 0; 1; 2]%nat in
  (NoDup C ∧ Numeric.in_range (N:=binary64) X C) ∧
  each_pair_once C (combinations C 2) ∧
  Numeric.kept (N:=binary64) P X C = [(3, 0); (3, 1); (0, 1)]%nat ∧
  Numeric.wocs_loop (N:=binary64) P X [] (combinations C 2) =
    Ok [S754_finite false 6004799503160663 (-55);
        S754_finite false 6004799503160663 (-56); S754_zero false] ∧
  Numeric._calculate_wocs (N:=binary64) P X C =
    Ok (Numeric.population_variance (N:=binary64)
          [S754_finite false 6004799503160663 (-55);
           S754_finite false 6004799503160663 (-56); S754_zero false]).
Proof.
  intros P X C.
  assert (NoDup C) as Hnd by (by apply (bool_decide_unpack _)).
  assert (Numeric.in_range (N:=binary64) X C) as Hin by (repeat constructor).
  split; [done|].
  destruct (calculate_wocs_pairs_variance (N:=binary64) P X C Hnd Hin)
    as (_ & Honce & Hloop & Hvalue).
  assert (mapM (Numeric.weighted_cosine (N:=binary64) P X)
               (Numeric.kept (N:=binary64) P X C) =
          Ok [S754_finite false 6004799503160663 (-55);
              S754_finite false 6004799503160663 (-56); S754_zero false])
    as Hvs by (by vm_compute).
  split; [exact Honce|]. split; [by vm_compute|].
  split; [exact (eq_trans Hloop Hvs)|].
  rewrite Hvalue, Hvs. reflexivity.
Defined.

(** C10 (as amended).  On a list of candidates and on a permutation of it,
    whatever the arithmetic of numpy, the loop collects a value for the
    same unordered pairs of candidates, those with neither point equal to
    the pivot.  The members of a pair are taken in the order of the list,
    and so are the values in the variance.  In exact arithmetic the two
    results are therefore equal.  The lists need not be duplicate-free. *)
Theorem calculate_wocs_reordered {N : Numeric.Numpy}
    (P : list Numeric.elem) (X : list (list Numeric.elem)) (C C' : list nat) :
  C ≡ₚ C' → Numeric.in_range X C →
  Numeric.wocs_loop P X [] (combinations C 2) =
    mapM (Numeric.weighted_cosine P X) (Numeric.kept P X C) ∧
  Numeric.wocs_loop P X [] (combinations C' 2) =
    mapM (Numeric.weighted_cosine P X) (Numeric.kept P X C') ∧
  unordered <$> Numeric.kept P X C ≡ₚ unordered <$> Numeric.kept P X C' ∧
  (∀ (Pq : point) (Xq : matrix) (w : scalar),
     _calculate_wocs Pq Xq C = Ok w ↔ _calculate_wocs Pq Xq C' = Ok w).
Proof.
  intros Hp Hin.
  assert (Numeric.in_range X C') as Hin'.
  { unfold Numeric.in_range. by rewrite <-Hp. }
  split; [by apply numeric_wocs_loop_candidates|].
  split; [by apply numeric_wocs_loop_candidates|].
  split; [by apply numeric_kept_Permutation|].
  intros Pq Xq w.
  split; apply calculate_wocs_Permutation_Ok; [done|by symmetry].
Qed.

Lemma calculate_wocs_reordered_witness :
  let P := [b64 0 0] in
  let X := [[b64 4 0]; [b64 2 0]; [b64 1 0]] in
  ([0; 1; 2]%nat ≡ₚ [1; 0; 2]%nat ∧
   Numeric.in_range (N:=binary64) X [0; 1; 2]%nat) ∧
  Numeric.kept (N:=binary64) P X [0; 1; 2]%nat = [(0, 1); (0, 2); (1, 2)]%nat ∧
  Numeric.kept (N:=binary64) P X [1; 0; 2]%nat = [(1, 0); (1, 2); (0, 2)]%nat ∧
  unordered <$> Numeric.kept (N:=binary64) P X [0; 1; 2]%nat ≡ₚ
  unordered <$> Numeric.kept (N:=binary64) P X [1; 0; 2]%nat ∧
  (_calculate_wocs [Qn 0] [[Qn 4]; [Qn 2]; [Qn 1]] [0; 1; 2]%nat
     = Ok (Fin (frac 7 288)) ∧
   _calculate_wocs [Qn 0] [[Qn 4]; [Qn 2]; [Qn 1]] [1; 0; 2]%nat
     = Ok (Fin (frac 7 288))).
Proof.
  intros P X.
  assert ([0; 1; 2]%nat ≡ₚ [1; 0; 2]%nat) as Hp by apply perm_swap.
  assert (Numeric.in_range (N:=binary64) X [0; 1; 2]%nat) as Hin
    by (repeat constructor).
  split; [done|].
  destruct (calculate_wocs_reordered (N:=binary64) P X _ _ Hp Hin)
    as (_ & _ & Hpairs & Hexact).
  split; [by vm_compute|]. split; [by vm_compute|].
  split; [exact Hpairs|].
  assert (_calculate_wocs [Qn 0] [[Qn 4]; [Qn 2]; [Qn 1]] [0; 1; 2]%nat
          = Ok (Fin (frac 7 288))) as Hw by (by vm_compute).
  split; [exact Hw|]. exact (proj1 (Hexact _ _ _) Hw).
Defined.

(** C10, as stated, fails in float64: for the pivot 0 and the points 4, 2
    and 1 the collected values are 1/8, 1/4, 1/2 on [[0; 1; 2]] and 1/8,
    1/2, 1/4 on [[1; 0; 2]]; the squared deviations are added in that
    order, and the two variances differ in the last bit. *)
Lemma calculate_wocs_order_rounding :
  let P := [b64 0 0] in
  let X := [[b64 4 0]; [b64 2 0]; [b64 1 0]] in
  let w := S754_finite false 7005599420354104 (-58) in
  let w' := S754_finite false 7005599420354105 (-58) in
  NoDup [0; 1; 2]%nat ∧ NoDup [1; 0; 2]%nat ∧
  [0; 1; 2]%nat ≡ₚ [1; 0; 2]%nat ∧
  Numeric.wocs_loop (N:=binary64) P X [] (combinations [0; 1; 2]%nat 2) =
    Ok [b64 1 (-3); b64 1 (-2); b64 1 (-1)] ∧
  Numeric.wocs_loop (N:=binary64) P X [] (combinations [1; 0; 2]%nat 2) =
    Ok [b64 1 (-3); b64 1 (-1); b64 1 (-2)] ∧
  Numeric._calculate_wocs (N:=binary64) P X [0; 1; 2]%nat = Ok w ∧
  Numeric._calculate_wocs (N:=binary64) P X [1; 0; 2]%nat = Ok w' ∧
  w ≠ w'.
Proof.
  intros P X w w'.
  split; [by apply (bool_decide_unpack _)|].
  split; [by apply (bool_decide_unpack _)|].
  split; [apply perm_swap|].
  split; [by vm_compute|]. split; [by vm_compute|].
  split; [by vm_compute|]. split; [by vm_compute|]. done.
Qed.

(** C7 (as amended).  Whatever the arithmetic of numpy, a candidate list
    with no valid pair gives [np.var] of no value and raises nothing: with
    fewer than two candidates, for any [P] and [X]; and when every pair is
    skipped because one of its points coincides with the pivot.  With
    exactly one pair that is not skipped the result is [np.var] of its one
    value.  [np.var] is NaN on no value and 0 on one finite value.  Fitting
    in fast mode with one neighbor on two or more points gives every pivot
    a candidate list of length one, succeeds, and stores NaN for every
    point. *)
Theorem wocs_degenerate_candidates {N : Numeric.Numpy}
    {V : Numeric.Variance N}
    (P : list Numeric.elem) (X : list (list Numeric.elem)) (C : list nat) :
  ((length C < 2)%nat → Numeric._calculate_wocs P X C = Ok Numeric.np_nan) ∧
  (Numeric.in_range X C →
   (∀ p, p ∈ pairs C → Numeric.skipped P X p = true) →
   Numeric._calculate_wocs P X C = Ok Numeric.np_nan) ∧
  (Numeric.in_range X C →
   ∀ p v, Numeric.kept P X C = [p] → Numeric.weighted_cosine P X p = Ok v →
          Numeric._calculate_wocs P X C = Ok (Numeric.var [v] 0) ∧
          (Numeric.np_isfinite v = true →
           Numeric._calculate_wocs P X C = Ok Numeric.np_zero)) ∧
  (∀ (E : Collaborators) (HE : Contract E) T T' y s,
     method s = "fast"%string → n_neighbors s = 1%Z → check_array T = Ok T' →
     (2 ≤ length T')%nat →
     ∃ ind_arr s',
       kneighbors T' 1 = Ok ind_arr ∧
       Forall (fun C => length C = 1%nat) ind_arr ∧
       fit T y s = (Ok tt, s') ∧
       decision_scores_ s' = Some (replicate (length T') NaN)).
Proof.
  split.
  { intros Hlen. by rewrite numeric_calculate_wocs_few, Numeric.var_empty. }
  split.
  { intros Hin Hskip. rewrite numeric_calculate_wocs_kept by done.
    unfold Numeric.kept. rewrite filter_none.
    - rewrite <-Numeric.var_empty. reflexivity.
    - apply Forall_forall. intros p Hp. by rewrite (Hskip p Hp). }
  split.
  { intros Hin p v Hone Hv.
    assert (Numeric._calculate_wocs P X C = Ok (Numeric.var [v] 0)) as Hw.
    { rewrite numeric_calculate_wocs_kept, Hone by done.
      by rewrite mapM_cons, Hv. }
    split; [done|]. intros Hfin. by rewrite Hw, Numeric.var_finite. }
  intros E HE T T' y s Hfast%String.eqb_eq Hk HT Hlen.
  destruct (fit_fast_one_neighbor T T' HT Hlen)
    as (ind_arr & Hind & Hone & Hraw).
  exists ind_arr. eexists. split; [done|]. split; [done|].
  pose proof (fit_cases T y s) as Hfit.
  rewrite HT in Hfit. cbn zeta in Hfit.
  rewrite Hfast, Hk, Hind, Hraw in Hfit.
  rewrite check_parameter_Ok in Hfit by lia.
  split; [exact Hfit|]. simpl. f_equal. unfold negate.
  by rewrite fmap_replicate.
Qed.

Lemma wocs_degenerate_candidates_witness :
  let P := [b64 0 0] in
  let X := [[b64 1 0]; [b64 3 0]; [b64 0 0]] in
  let T := [[Qn 1; Qn 0]; [Qn 0; Qn 2]; [Qn 0; Qn 0]; [Qn 3; Qn 3]] in
  Numeric._calculate_wocs (N:=binary64) P X [1%nat] = Ok S754_nan ∧
  Numeric._calculate_wocs (N:=binary64) P X [2; 0]%nat = Ok S754_nan ∧
  Numeric.weighted_cosine (N:=binary64) P X (0, 1)%nat =
    Ok (S754_finite false 6004799503160661 (-54)) ∧
  Numeric._calculate_wocs (N:=binary64) P X [0; 1; 2]%nat =
    Ok (S754_zero false) ∧
  ∃ s', fit T None (__init__ (frac 1 10) 1 "fast") = (Ok tt, s') ∧
        decision_scores_ s' = Some [NaN; NaN; NaN; NaN].
Proof.
  intros P X T.
  split.
  { apply (proj1 (wocs_degenerate_candidates (N:=binary64) P X [1%nat])).
    simpl. lia. }
  split.
  { apply (proj1 (proj2
             (wocs_degenerate_candidates (N:=binary64) P X [2; 0]%nat))).
    - repeat constructor.
    - intros p ->%list_elem_of_singleton. reflexivity. }
  assert (Numeric.weighted_cosine (N:=binary64) P X (0, 1)%nat =
          Ok (S754_finite false 6004799503160661 (-54))) as Hv
    by (by vm_compute).
  split; [exact Hv|].
  split.
  { apply (proj1 (proj2 (proj2
             (wocs_degenerate_candidates (N:=binary64) P X [0; 1; 2]%nat))))
      with (p := (0, 1)%nat) (v := S754_finite false 6004799503160661 (-54)).
    - repeat constructor.
    - reflexivity.
    - exact Hv.
    - reflexivity. }
  assert (check_array T = Ok T) as HT by reflexivity.
  destruct (proj2 (proj2 (proj2
              (wocs_degenerate_candidates (N:=binary64) P X [])))
              brute_force brute_force_contract
              T T None (__init__ (frac 1 10) 1 "fast") eq_refl eq_refl HT)
    as (ind_arr & s' & _ & _ & Hfit & Hscores).
  { simpl. lia. }
  exists s'. split; [exact Hfit|exact Hscores].
Defined.

(** C7, as stated, fails in float64 when the value of the one pair is not
    finite: for the pivot 0 and the points 2^600 and 2^601 the inner
    product and the squared norms overflow, the weighted cosine is
    inf / inf, and the result is NaN, not 0. *)
Lemma wocs_one_pair_overflow :
  let P := [b64 0 0] in
  let X := [[b64 1 600]; [b64 1 601]] in
  Numeric.in_range (N:=binary64) X [0; 1]%nat ∧
  Numeric.kept (N:=binary64) P X [0; 1]%nat = [(0, 1)%nat] ∧
  Numeric.weighted_cosine (N:=binary64) P X (0, 1)%nat = Ok S754_nan ∧
  Numeric._calculate_wocs (N:=binary64) P X [0; 1]%nat = Ok S754_nan ∧
  S754_nan ≠ S754_zero false.
Proof.
  intros P X. split; [repeat constructor|].
  split; [by vm_compute|]. split; [by vm_compute|].
  split; [by vm_compute|]. done.
Qed.

(** * The detector *)

Lemma check_is_fitted_missing attributes s a :
  a ∈ attributes → hasattr s a = false →
  ∃ missing,
    check_is_fitted attributes s = (Raise (NotFittedError missing), s) ∧
    missing = filter (fun a => hasattr s a = false) attributes ∧
    a ∈ missing.
Proof.
  intros Ha Hattr. eexists. split; [|split; [done|]].
  - apply check_is_fitted_Raise. intros Hnil.
    assert (a ∈ filter (fun a => hasattr s a = false) attributes) as Hin
      by (by apply list_elem_of_filter).
    rewrite Hnil in Hin. by apply elem_of_nil in Hin.
  - by apply list_elem_of_filter.
Qed.

Lemma decision_function_not_fitted {E : Collaborators} Q s a :
  a ∈ ["X_train_"; "n_train_"; "decision_scores_"; "threshold_";
       "labels_"]%string →
  hasattr s a = false →
  ∃ missing,
    decision_function Q s = (Raise (NotFittedError missing), s) ∧
    missing =
      filter (fun a => hasattr s a = false)
        ["X_train_"; "n_train_"; "decision_scores_"; "threshold_";
         "labels_"]%string ∧
    a ∈ missing.
Proof.
  intros Ha Hattr.
  destruct (check_is_fitted_missing _ s a Ha Hattr) as (missing & Hc & ? & ?).
  exists missing. split; [|done].
  unfold decision_function. by erewrite bind_Raise by exact Hc.
Qed.

Lemma decision_function_Ok_fitted {E : Collaborators} Q s r s' :
  decision_function Q s = (Ok r, s') →
  is_Some (X_train_ s) ∧ is_Some (n_train_ s) ∧
  is_Some (decision_scores_ s) ∧ is_Some (threshold_ s) ∧
  is_Some (labels_ s).
Proof.
  intros Hd. unfold decision_function in Hd.
  destruct (check_is_fitted
              ["X_train_"; "n_train_"; "decision_scores_"; "threshold_";
               "labels_"]%string s) as [[[]|e] s1] eqn:Hc.
  2: { by erewrite bind_Raise in Hd by exact Hc. }
  apply check_is_fitted_inv in Hc.
  rewrite !Forall_cons in Hc.
  destruct Hc as (H1 & H2 & H3 & H4 & H5 & _).
  unfold hasattr in *. simpl in *.
  by repeat split; eapply bool_decide_eq_true_1.
Qed.

(** C2 (as amended).  When [fit] is called with a method that is neither
    'fast' nor 'default' on an input that passes validation, it raises
    [ValueError(method, "is not a valid method")].  By then it has assigned
    the class count, [X_train_], [n_train_] and a zero-filled
    [decision_scores_], and these stay assigned; [tree_], [threshold_],
    [labels_] and the constructor parameters are as before the call.  A
    detector without [threshold_] or [labels_] before the call is still
    rejected by [decision_function] afterwards. *)
Theorem fit_invalid_method {E : Collaborators} (X X' : matrix)
    (y : option (list Z)) (s : ABOD) (Q : matrix) :
  check_array X = Ok X' →
  method s ≠ "fast"%string → method s ≠ "default"%string →
  let s' := started X' y s in
  fit X y s =
    (Raise (ValueError [method s; "is not a valid method"%string]), s') ∧
  (_classes s' = Some (n_classes y) ∧ X_train_ s' = Some X' ∧
   n_train_ s' = Some (length X') ∧
   decision_scores_ s' = Some (zeros (length X'))) ∧
  (tree_ s' = tree_ s ∧ threshold_ s' = threshold_ s ∧
   labels_ s' = labels_ s ∧ contamination s' = contamination s ∧
   n_neighbors s' = n_neighbors s ∧ method s' = method s) ∧
  (threshold_ s = None ∨ labels_ s = None →
   ∃ missing, decision_function Q s' = (Raise (NotFittedError missing), s')).
Proof.
  intros HX Hfast%String.eqb_neq Hdefault%String.eqb_neq s'.
  split; [|split; [done|split; [done|]]].
  - pose proof (fit_cases X y s) as Hfit.
    rewrite HX in Hfit. cbn zeta in Hfit.
    by rewrite Hfast, Hdefault in Hfit.
  - intros [Hnone|Hnone].
    + destruct (decision_function_not_fitted Q s' "threshold_")
        as (missing & Hd & _); [by repeat constructor| |by eauto].
      unfold hasattr. simpl. rewrite Hnone. done.
    + destruct (decision_function_not_fitted Q s' "labels_")
        as (missing & Hd & _); [by repeat constructor| |by eauto].
      unfold hasattr. simpl. rewrite Hnone. done.
Qed.

Lemma fit_invalid_method_witness :
  let X := [[Qn 0]; [Qn 1]] in
  let s := __init__ (frac 1 10) 5 "exact" in
  (check_array X = Ok X ∧ method s ≠ "fast"%string ∧
   method s ≠ "default"%string) ∧
  fit X None s =
    (Raise (ValueError ["exact"; "is not a valid method"]%string),
     started X None s).
Proof.
  intros X s.
  assert (check_array X = Ok X) as HX by reflexivity.
  assert (method s ≠ "fast"%string) as Hfast by discriminate.
  assert (method s ≠ "default"%string) as Hdefault by discriminate.
  split; [done|].
  apply (fit_invalid_method X X None s [] HX Hfast Hdefault).
Defined.

(** C2, as stated, fails: after the failed call the detector holds the
    training set and a zero-filled score array that it did not hold
    before. *)
Lemma fit_invalid_method_mutates :
  let X := [[Qn 0]; [Qn 1]] in
  let s := __init__ (frac 1 10) 5 "exact" in
  ∃ s', fit X None s =
          (Raise (ValueError ["exact"; "is not a valid method"]%string), s') ∧
        s' ≠ s ∧
        X_train_ s = None ∧ X_train_ s' = Some X ∧
        decision_scores_ s = None ∧
        decision_scores_ s' = Some [Fin (Qn 0); Fin (Qn 0)].
Proof.
  intros X s. eexists. split; [reflexivity|].
  split; [|done]. intros Heq.
  apply (f_equal X_train_) in Heq. discriminate Heq.
Qed.

(** The reference instance with the neighbor query of scikit-learn honours
    the contract, and raises when asked for as many neighbors as there are
    points. *)
Lemma nearest_others_shape data k i q :
  (i < length data)%nat → (k < length data)%nat →
  length (nearest_others data k i q) = k ∧
  in_range data (nearest_others data k i q) ∧
  i ∉ nearest_others data k i q.
Proof.
  intros Hi Hk. unfold nearest_others.
  set (keys := squared_distance q <$> data).
  destruct (argsort_fold (fun j => keys !!! j)
              (seq 0 i ++ seq (S i) (length data - S i)) [])
    as [Hlen Hmem].
  assert (∀ x, x ∈ foldl (fun acc j => insert_by (fun j => keys !!! j) j acc)
                       [] (seq 0 i ++ seq (S i) (length data - S i)) →
               (x < length data)%nat ∧ x ≠ i) as Hall.
  { intros x [?%elem_of_nil|Hx]%Hmem; [done|].
    apply elem_of_app in Hx as [Hx%elem_of_seq|Hx%elem_of_seq]; lia. }
  split; [|split].
  - rewrite length_take, Hlen, length_app, !length_seq. simpl. lia.
  - apply Forall_forall. intros x Hx%subseteq_take. by apply Hall.
  - intros Hx%subseteq_take. by destruct (Hall _ Hx).
Qed.

Lemma leave_one_out_contract : Contract leave_one_out.
Proof.
  split.
  - intros X X'. simpl. destruct (is_2d X) eqn:H2d; [|done].
    intros [= <-]. by apply is_2d_spec.
  - intros X k Hk. simpl. rewrite bool_decide_eq_true_2 by done. eauto.
  - intros X k ind_arr. simpl. case_bool_decide as Hk; [|done].
    intros [= <-]. split; [by rewrite length_imap|].
    apply Forall_lookup. intros i r (q & Hq & ->)%list_lookup_imap_Some.
    apply lookup_lt_Some in Hq.
    destruct (nearest_others_shape X (Z.to_nat k) i q) as (? & ? & _);
      [done|lia|done].
Qed.

Lemma leave_one_out_bound : LeaveOneOut leave_one_out.
Proof.
  split. intros X k Hk. simpl. rewrite bool_decide_eq_false_2 by lia. eauto.
Qed.

(** C3.  In fast mode, on a validated training set of N points, [fit]
    with neighbor count k outside 1 <= k <= N raises the parameter-range
    error with [tree_] not assigned, whatever the neighbor query would
    answer; so it does for k > N.  For 1 <= k < N, [fit] succeeds and holds
    the index, given a neighbor query that honours its contract.  For k = N
    the check of the range passes and the index is built, and then the
    neighbor query, which leaves every point out of its own neighbors,
    raises: [fit] fails with the error of the query. *)
Theorem fit_fast_neighbor_count {E : Collaborators} {HE : Contract E}
    {HL : LeaveOneOut E}
    (X X' : matrix) (y : option (list Z)) (s : ABOD) :
  method s = "fast"%string → check_array X = Ok X' →
  let k := n_neighbors s in
  let N := Z.of_nat (length X') in
  (¬ (1 ≤ k ≤ N)%Z →
   fit X y s =
     (Raise (ValueError ["parameter is not in the range"%string]),
      started X' y s) ∧
   tree_ (started X' y s) = tree_ s) ∧
  ((k > N)%Z →
   fit X y s =
     (Raise (ValueError ["parameter is not in the range"%string]),
      started X' y s)) ∧
  ((1 ≤ k < N)%Z →
   ∃ s', fit X y s = (Ok tt, s') ∧
         tree_ s' = Some {| tree_data := X' |}) ∧
  (k = N →
   check_parameter k 1 N = Ok tt ∧
   ∃ args, kneighbors X' k = Raise (ValueError args) ∧
           fit X y s =
             (Raise (ValueError args),
              set_tree_ {| tree_data := X' |} (started X' y s))).
Proof.
  intros Hfast%String.eqb_eq HX k N. subst k N.
  pose proof (fit_cases X y s) as Hfit.
  rewrite HX in Hfit. cbn zeta in Hfit. rewrite Hfast in Hfit.
  assert (¬ (1 ≤ n_neighbors s ≤ Z.of_nat (length X'))%Z →
          fit X y s =
          (Raise (ValueError ["parameter is not in the range"%string]),
           started X' y s)) as Hout.
  { intros Hk. by rewrite (check_parameter_Raise _ _ Hk) in Hfit. }
  split; [|split; [|split]].
  - intros Hk. split; [by apply Hout|done].
  - intros Hk. apply Hout. lia.
  - intros Hk.
    destruct (fit_fast_succeeds X X' y s Hfast HX Hk)
      as (ind_arr & raw & _ & _ & Hok).
    eexists. split; [exact Hok|done].
  - intros Hk.
    destruct (check_array_2d _ _ HX) as [Hne _].
    assert (1 ≤ n_neighbors s ≤ Z.of_nat (length X'))%Z as Hrange.
    { destruct X'; [done|]. simpl in *. lia. }
    rewrite (check_parameter_Ok _ _ Hrange) in Hfit.
    split; [by apply check_parameter_Ok|].
    destruct (kneighbors_bound X' (n_neighbors s)) as [args Hargs]; [lia|].
    rewrite Hargs in Hfit. by exists args.
Qed.

Lemma fit_fast_neighbor_count_witness :
  let X := [[Qn 0]; [Qn 1]] in
  let s := __init__ (frac 1 10) 2 "fast" in
  @check_array leave_one_out X = Ok X ∧
  check_parameter 2 1 2 = Ok tt ∧
  @fit leave_one_out X None s =
    (Raise (ValueError ["Expected n_neighbors <= n_samples"%string]),
     set_tree_ {| tree_data := X |} (@started leave_one_out X None s)) ∧
  ∃ s', @fit leave_one_out X None (__init__ (frac 1 10) 1 "fast") = (Ok tt, s').
Proof.
  intros X s.
  assert (@check_array leave_one_out X = Ok X) as HX by reflexivity.
  split; [exact HX|].
  destruct (@fit_fast_neighbor_count leave_one_out leave_one_out_contract
              leave_one_out_bound X X None s eq_refl HX)
    as (_ & _ & _ & Hbound).
  destruct (Hbound eq_refl) as (Hcheck & args & Hargs & Hfit).
  split; [exact Hcheck|].
  assert (args = ["Expected n_neighbors <= n_samples"%string]) as ->.
  { assert (@kneighbors leave_one_out X 2 =
            Raise (ValueError ["Expected n_neighbors <= n_samples"%string]))
      as Hk by reflexivity.
    change (n_neighbors s) with 2%Z in Hargs. rewrite Hk in Hargs.
    by injection Hargs. }
  split; [exact Hfit|].
  destruct (@fit_fast_neighbor_count leave_one_out leave_one_out_contract
              leave_one_out_bound X X None (__init__ (frac 1 10) 1 "fast")
              eq_refl HX)
    as (_ & _ & Hin & _).
  destruct Hin as (s' & Hok & _); [simpl; lia|]. by exists s'.
Defined.

(** C8.  [decision_function] first checks the attributes [X_train_],
    [n_train_], [decision_scores_], [threshold_] and [labels_].  When one
    of them is missing it raises the not-fitted error, which names the
    missing ones, and does nothing else; it returns scores only when all
    five are present.  A detector fresh from the constructor misses all
    five, and one whose every [fit] so far has failed still misses
    [threshold_] and [labels_]. *)
Theorem decision_function_requires_fit {E : Collaborators}
    (Q : matrix) (s : ABOD) :
  let required := ["X_train_"; "n_train_"; "decision_scores_";
                   "threshold_"; "labels_"]%string in
  (∀ a, a ∈ required → hasattr s a = false →
     ∃ missing,
       decision_function Q s = (Raise (NotFittedError missing), s) ∧
       missing = filter (fun a => hasattr s a = false) required ∧
       a ∈ missing) ∧
  (∀ r s', decision_function Q s = (Ok r, s') →
     is_Some (X_train_ s) ∧ is_Some (n_train_ s) ∧
     is_Some (decision_scores_ s) ∧ is_Some (threshold_ s) ∧
     is_Some (labels_ s)) ∧
  (∀ c k m,
     decision_function Q (__init__ c k m) =
     (Raise (NotFittedError required), __init__ c k m)) ∧
  (∀ X y e s',
     threshold_ s = None → labels_ s = None →
     fit X y s = (Raise e, s') →
     ∃ missing,
       decision_function Q s' = (Raise (NotFittedError missing), s') ∧
       "threshold_"%string ∈ missing ∧ "labels_"%string ∈ missing).
Proof.
  intros required. subst required.
  split; [apply decision_function_not_fitted|].
  split; [|split].
  - apply decision_function_Ok_fitted.
  - intros c k m. unfold decision_function.
    by erewrite bind_Raise by reflexivity.
  - intros X y e s' Ht Hl Hfit.
    destruct (fit_Raise_threshold_labels _ _ _ _ _ Hfit) as [Ht' Hl'].
    rewrite Ht in Ht'. rewrite Hl in Hl'.
    destruct (decision_function_not_fitted Q s' "threshold_")
      as (missing & Hd & -> & Hin); [by repeat constructor| |].
    { unfold hasattr. simpl. by rewrite Ht'. }
    eexists. split; [done|]. split; [done|].
    apply list_elem_of_filter. split; [|by repeat constructor].
    unfold hasattr. simpl. by rewrite Hl'.
Qed.

Lemma decision_function_requires_fit_witness :
  let X := [[Qn 1; Qn 0]; [Qn 0; Qn 2]; [Qn 0; Qn 0]; [Qn 3; Qn 3]] in
  let s := __init__ (frac 1 10) 5 "fast" in
  let s' := started X None s in
  (threshold_ s = None ∧ labels_ s = None ∧
   fit X None s =
     (Raise (ValueError ["parameter is not in the range"%string]), s')) ∧
  ∃ missing,
    decision_function X s' = (Raise (NotFittedError missing), s') ∧
    "threshold_"%string ∈ missing ∧ "labels_"%string ∈ missing.
Proof.
  intros X s s'.
  assert (fit X None s =
          (Raise (ValueError ["parameter is not in the range"%string]), s'))
    as Hfit by reflexivity.
  split; [done|].
  exact (proj2 (proj2 (proj2 (decision_function_requires_fit X s)))
           X None _ _ eq_refl eq_refl Hfit).
Defined.

(** C9.  [decision_function] assigns no attribute: the detector is the
    same after the call, whatever the outcome, and a second call with the
    same query matrix gives the outcome of the first. *)
Theorem decision_function_idempotent {E : Collaborators}
    (Q : matrix) (s : ABOD) :
  (decision_function Q s).2 = s ∧
  decision_function Q (decision_function Q s).2 = decision_function Q s.
Proof.
  split; [apply read_only_decision_function|].
  by rewrite read_only_decision_function.
Qed.

Lemma score_step_Ok_inv Q X candidates i w :
  score_step Q X candidates i = Ok w →
  ∃ P C, Q !! i = Some P ∧ candidates i = Ok C ∧ _calculate_wocs P X C = Ok w.
Proof.
  unfold score_step, row.
  destruct (Q !! i) as [P|]; [|done]. rewrite rbind_Ok.
  destruct (candidates i) as [C|]; [|done]. rewrite rbind_Ok. eauto.
Qed.

Lemma raw_score_lookup X candidates (raw : list scalar) i :
  mapM (score_step X X candidates) (range (length X)) = Ok raw →
  (i < length X)%nat →
  ∃ P C w, X !! i = Some P ∧ candidates i = Ok C ∧ raw !! i = Some w ∧
           _calculate_wocs P X C = Ok w.
Proof.
  intros Hraw Hi.
  destruct (mapM_Ok_lookup _ _ _ i i Hraw) as (w & Hw & Hstep).
  { unfold range. by apply lookup_seq. }
  destruct (score_step_Ok_inv _ _ _ _ _ Hstep) as (P & C & ? & ? & ?).
  by exists P, C, w.
Qed.



Lemma fitted_attributes {E : Collaborators} raw X' (y : option (list Z)) s0 s :
  s0 = started X' y s ∨ s0 = set_tree_ {| tree_data := X' |} (started X' y s) →
  let s' := fitted raw s0 in
  X_train_ s' = Some X' ∧ n_train_ s' = Some (length X') ∧
  decision_scores_ s' = Some (negate raw) ∧
  is_Some (threshold_ s') ∧ is_Some (labels_ s') ∧ method s' = method s ∧
  n_neighbors s' = n_neighbors s.
Proof. intros [->| ->]; simpl; by repeat split; try eexists. Qed.

Lemma list_remove_absent (l : list nat) (x : nat) :
  x ∉ l →
  list_remove l x = Raise (ValueError ["list.remove(x): x not in list"%string]).
Proof.
  induction l as [|y l IH]; [done|].
  intros [Hne Hl]%not_elem_of_cons. simpl.
  destruct (Nat.eqb_spec y x) as [->|_]; [done|]. by rewrite IH.
Qed.

(** C5.  In default mode, at fit time the body of the loop of
    [_fit_default] takes as candidates of the training point [i] the list
    of range(n_train_) with [i] removed: the indices below [n_train_] other
    than [i]; the removal raises when [i] is not below [n_train_].  At
    score time the body of the loop of [_decision_function_default] takes
    all of range(n_train_), for every query point.  The two lists differ:
    [i] is in the second and not in the first.  So do the methods as
    wholes: the raw score of the training point [i] after [fit] is the
    statistic over the first list, and [decision_function] scores every
    query point over the second. *)
Theorem default_mode_candidates {E : Collaborators} :
  (∀ i s X n d,
     X_train_ s = Some X → n_train_ s = Some n → decision_scores_ s = Some d →
     _fit_default_body i s =
     match (curr_pt ← row X i;
            X_ind ← list_remove (range n) i;
            _calculate_wocs curr_pt X X_ind) with
     | Ok w => match setitem d i w with
               | Ok d' => (Ok tt, set_decision_scores_ d' s)
               | Raise e => (Raise e, s)
               end
     | Raise e => (Raise e, s)
     end) ∧
  (∀ Q i pred s X n,
     X_train_ s = Some X → n_train_ s = Some n →
     _decision_function_default_body Q i pred s =
     (curr_pt ← row Q i;
      w ← _calculate_wocs curr_pt X (range n);
      setitem pred i w, s)) ∧
  (∀ n i, (i < n)%nat →
     ∃ C, list_remove (range n) i = Ok C ∧
          (∀ j, j ∈ C ↔ (j < n)%nat ∧ j ≠ i) ∧
          (i ∉ C) ∧ i ∈ range n ∧ C ≠ range n) ∧
  (∀ n i, (n ≤ i)%nat →
     list_remove (range n) i =
     Raise (ValueError ["list.remove(x): x not in list"%string])) ∧
  (∀ n j, j ∈ range n ↔ (j < n)%nat) ∧
  (∀ X y s s' Q,
     method s = "default"%string → fit X y s = (Ok tt, s') →
     ∃ X' raw,
       check_array X = Ok X' ∧
       decision_scores_ s' = Some (negate raw) ∧
       (∀ i, (i < length X')%nat →
          ∃ P C w,
            X' !! i = Some P ∧
            list_remove (range (length X')) i = Ok C ∧
            raw !! i = Some w ∧ _calculate_wocs P X' C = Ok w) ∧
       decision_function Q s' =
         (Q' ← check_array Q;
          raw' ← mapM (fun q => _calculate_wocs q X' (range (length X'))) Q';
          Ok (negate raw'), s')).
Proof.
  assert (∀ n j, j ∈ range n ↔ (j < n)%nat) as Hall.
  { intros n j. unfold range. rewrite elem_of_seq. lia. }
  split; [|split; [|split; [|split; [|split; [done|]]]]].
  - intros i s X n d HX Hn Hd.
    by rewrite (fit_default_body_step i s X n d).
  - intros Q i pred s X n HX Hn.
    rewrite (decision_default_body_step Q i pred s X n) by done.
    unfold score_step, score_default_candidates.
    by destruct (row Q i).
  - intros n i Hi.
    destruct (fit_default_candidates_spec _ _ Hi) as (C & HC & Hin).
    exists C. split; [done|]. split; [done|].
    assert (i ∉ C) as Hout by (rewrite Hin; lia).
    assert (i ∈ range n) as Hmem by (by apply Hall).
    split; [done|]. split; [done|]. by intros ->.
  - intros n i Hi. apply list_remove_absent. rewrite Hall. lia.
  - intros X y s s' Q Hdefault Hfit.
    assert (String.eqb (method s) "fast" = false) as Hnot
      by (rewrite Hdefault; reflexivity).
    destruct (fit_Ok_inv _ _ _ _ Hfit) as (X' & HX & [[? _]|(_ & _ & Hf)]);
      [congruence|].
    destruct Hf as (raw & Hraw & ->).
    exists X', raw. split; [done|]. split; [done|]. split.
    + intros i Hi.
      destruct (raw_score_lookup _ _ _ i Hraw Hi)
        as (P & C & w & HP & HC & Hw & Hs).
      by exists P, C, w.
    + destruct (fitted_attributes raw X' y (started X' y s) s)
        as (H1 & H2 & H3 & H4 & H5 & H6 & _); [by left|].
      rewrite (decision_function_fitted Q _ X') by eauto.
      unfold raw_scores. rewrite H6, Hnot, H2.
      f_equal. destruct (check_array Q) as [Q'|]; [|done].
      rewrite !rbind_Ok. by rewrite mapM_score_rows.
Qed.

Lemma default_mode_candidates_witness :
  let X := [[Qn 0; Qn 0]; [Qn 1; Qn 0]; [Qn 0; Qn 1]; [Qn 1; Qn 1];
            [Qn 10; Qn 10]] in
  let s := __init__ (frac 1 5) 5 "default" in
  ∃ s', fit X None s = (Ok tt, s') ∧
    list_remove (range 5) 4 = Ok [0; 1; 2; 3]%nat ∧
    range 5 = [0; 1; 2; 3; 4]%nat ∧
    ∃ raw, decision_scores_ s' = Some (negate raw) ∧
      ∃ w, raw !! 4%nat = Some w ∧
           _calculate_wocs [Qn 10; Qn 10] X [0; 1; 2; 3]%nat = Ok w.
Proof.
  intros X s.
  assert (fit X None s = (Ok tt, (fit X None s).2)) as Hfit by (by vm_compute).
  exists (fit X None s).2.
  split; [done|]. split; [by vm_compute|]. split; [by vm_compute|].
  destruct (proj2 (proj2 (proj2 (proj2 (proj2 default_mode_candidates))))
              X None s _ [] eq_refl Hfit)
    as (X' & raw & HX & Hscores & Hraw & _).
  assert (X' = X) as -> by (by injection HX).
  exists raw. split; [done|].
  destruct (Hraw 4%nat) as (P & C & w & HP & HC & Hw & Hs).
  { simpl. lia. }
  injection HP as <-. injection HC as <-.
  exists w. split; [done|exact Hs].
Defined.

(** C6.  In both modes, the scores stored by a successful [fit] are the
    raw per-point values of the statistic multiplied by -1, and the scores
    returned by [decision_function] are the raw per-query values multiplied
    by -1.  Multiplying by -1 maps a finite [w] to [-w], reverses the
    order, and keeps NaN. *)
Theorem scores_are_negated_wocs {E : Collaborators} :
  (∀ X y s s',
     fit X y s = (Ok tt, s') →
     ∃ X' raw,
       check_array X = Ok X' ∧
       mapM (score_step X' X' (fit_candidates s X')) (range (length X'))
       = Ok raw ∧
       decision_scores_ s' = Some ((fun w => fmul w (Fin (-1))) <$> raw)) ∧
  (∀ Q s r s',
     decision_function Q s = (Ok r, s') →
     ∃ Q' Xt raw,
       check_array Q = Ok Q' ∧ X_train_ s = Some Xt ∧
       raw_scores s Xt Q' = Ok raw ∧
       r = (fun w => fmul w (Fin (-1))) <$> raw) ∧
  (∀ w, fmul (Fin w) (Fin (-1)) = Fin (- w)) ∧
  fmul NaN (Fin (-1)) = NaN ∧
  (∀ a b : Qc, a ≤ b → - b ≤ - a).
Proof.
  split; [|split; [|split; [|split; [done|apply Qcopp_le_compat]]]].
  - intros X y s s' Hfit.
    destruct (fit_Ok_inv _ _ _ _ Hfit) as (X' & HX & [[Hfast Hf]|(Hnot & _ & Hf)]).
    + destruct Hf as (ind_arr & raw & Hind & Hraw & ->).
      exists X', raw. split; [done|]. split; [|done].
      rewrite <-Hraw. apply mapM_ext_in. intros i _.
      unfold score_step, fit_candidates. by rewrite Hfast, Hind.
    + destruct Hf as (raw & Hraw & ->).
      exists X', raw. split; [done|]. split; [|done].
      rewrite <-Hraw. apply mapM_ext_in. intros i _.
      unfold score_step, fit_candidates. by rewrite Hnot.
  - intros Q s r s' Hd.
    destruct (decision_function_Ok_fitted Q s r s' Hd)
      as ([Xt HX] & Hn & Hds & Ht & Hl).
    rewrite (decision_function_fitted Q s Xt) in Hd by done.
    destruct (check_array Q) as [Q'|]; [|done]. rewrite rbind_Ok in Hd.
    destruct (raw_scores s Xt Q') as [raw|] eqn:Hraw; [|done].
    rewrite rbind_Ok in Hd. injection Hd as <- <-.
    by exists Q', Xt, raw.
  - intros w. simpl. f_equal. ring.
Qed.

Lemma scores_are_negated_wocs_witness :
  let X := [[Qn 0; Qn 0]; [Qn 1; Qn 0]; [Qn 0; Qn 1]; [Qn 1; Qn 1];
            [Qn 10; Qn 10]] in
  let Q := [[Qn 2; Qn 2]; [Qn 0; Qn 0]] in
  let s := __init__ (frac 1 5) 5 "default" in
  ∃ s' raw r raw',
    fit X None s = (Ok tt, s') ∧
    mapM (score_step X X (fit_candidates s X)) (range (length X)) = Ok raw ∧
    decision_scores_ s' = Some ((fun w => fmul w (Fin (-1))) <$> raw) ∧
    decision_function Q s' = (Ok r, s') ∧
    raw_scores s' X Q = Ok raw' ∧
    r = (fun w => fmul w (Fin (-1))) <$> raw'.
Proof.
  intros X Q s.
  pose (s' := (fit X None s).2).
  assert (fit X None s = (Ok tt, s')) as Hfit by (by vm_compute).
  destruct (proj1 scores_are_negated_wocs X None s s' Hfit)
    as (X' & raw & HX & Hraw & Hscores).
  assert (X' = X) as -> by (by injection HX).
  assert (decision_function Q s' = (Ok (decision_function_values Q s'), s'))
    as Hd by (by vm_compute).
  destruct (proj1 (proj2 scores_are_negated_wocs) Q s' _ s' Hd)
    as (Q' & Xt & raw' & HQ & HXt & Hraw' & Hr).
  assert (Q' = Q) as -> by (by injection HQ).
  assert (X_train_ s' = Some X) as HXs by (by vm_compute).
  assert (Xt = X) as -> by congruence.
  exists s', raw, (decision_function_values Q s'), raw'.
  exact (conj Hfit (conj Hraw (conj Hscores (conj Hd (conj Hraw' Hr))))).
Defined.

(** * Further properties of the statistic *)

Lemma foldl_fadd_NaN (l : list scalar) : foldl fadd NaN l = NaN.
Proof. induction l as [|v l IH]; [done|]. simpl. apply IH. Qed.

Lemma fsum_NaN (l : list scalar) : NaN ∈ l → fsum l = NaN.
Proof.
  unfold fsum. generalize (Fin 0). induction l as [|v l IH]; intros a Hin.
  - by apply elem_of_nil in Hin.
  - apply elem_of_cons in Hin as [<-|Hin]; simpl.
    + destruct a; apply foldl_fadd_NaN.
    + by apply IH.
Qed.

Lemma scalars_finite_or_NaN (l : list scalar) :
  (∃ qs, l = Fin <$> qs) ∨ NaN ∈ l.
Proof.
  induction l as [|[q|] l [[qs ->]|Hin]].
  - left. by exists [].
  - left. by exists (q :: qs).
  - right. by right.
  - right. left.
  - right. left.
Qed.

Lemma var_NaN (l : list scalar) : NaN ∈ l → var l = NaN.
Proof.
  intros Hin. unfold var. rewrite (fsum_NaN (map _ (map _ l))); [done|].
  apply (list_elem_of_fmap_2 (fun d => fmul d d) _ NaN).
  apply (list_elem_of_fmap_2 (fun v => fsub v _) _ NaN Hin).
Qed.

Lemma qsum_nonneg (qs : list Qc) : Forall (fun q => 0 ≤ q) qs → 0 ≤ qsum qs.
Proof.
  induction 1 as [|q qs Hq _ IH]; simpl; [apply Qcle_refl|].
  by apply Qcplus_nonneg_nonneg.
Qed.

Lemma population_variance_nonneg (qs : list Qc) :
  qs ≠ [] → 0 ≤ population_variance qs.
Proof.
  intros Hne. unfold population_variance. unfold Qcdiv at 1.
  apply Qcmult_nonneg_nonneg.
  - apply qsum_nonneg, Forall_fmap, Forall_forall. intros x _.
    apply Qcsquare_nonneg.
  - apply Qclt_le_weak, Qcinv_pos. destruct qs as [|q qs]; [done|].
    rewrite <-Z2Qc_inj_0. apply (proj1 (Z2Qc_inj_lt 0 _)). simpl. lia.
Qed.

Lemma var_nonnegative_or_nan (l : list scalar) : nonnegative_or_nan (var l).
Proof.
  destruct (scalars_finite_or_NaN l) as [[qs ->]|Hin].
  - rewrite var_Fin. destruct qs as [|q qs]; [done|].
    by apply population_variance_nonneg.
  - by rewrite var_NaN.
Qed.

(** X1.  Whatever the pivot, the matrix and the candidate list, a finite
    result of the statistic is never negative. *)
Theorem calculate_wocs_nonnegative (P : point) (X : matrix) (C : list nat)
    (v : Qc) :
  _calculate_wocs P X C = Ok (Fin v) → 0 ≤ v.
Proof.
  unfold _calculate_wocs.
  destruct (wocs_loop P X [] (combinations C 2)) as [wcos_list|]; [|done].
  rewrite rbind_Ok. intros [= Hv].
  pose proof (var_nonnegative_or_nan wcos_list) as Hvar.
  by rewrite Hv in Hvar.
Qed.

Lemma calculate_wocs_nonnegative_witness :
  let P := [Qn 0; Qn 0] in
  let X := [[Qn 1; Qn 0]; [Qn 0; Qn 2]; [Qn 0; Qn 0]; [Qn 3; Qn 3]] in
  _calculate_wocs P X [0; 1; 3]%nat = Ok (Fin (frac 1 216)) ∧
  0 ≤ frac 1 216.
Proof.
  intros P X.
  assert (_calculate_wocs P X [0; 1; 3]%nat = Ok (Fin (frac 1 216))) as Hw
    by (by vm_compute).
  exact (conj Hw (calculate_wocs_nonnegative P X _ _ Hw)).
Defined.

Lemma mapM_Raise_uniform {A B} (f : A → result B) (l : list A) (e : exn) :
  (∀ x, x ∈ l → (∃ o, f x = Ok o) ∨ f x = Raise e) →
  (∃ x, x ∈ l ∧ f x = Raise e) →
  mapM f l = Raise e.
Proof.
  induction l as [|x l IH]; intros Hall (z & Hz & Hraise).
  { by apply elem_of_nil in Hz. }
  rewrite mapM_cons.
  destruct (Hall x) as [[o Ho]|Hx]; [left| |by rewrite Hx].
  rewrite Ho, rbind_Ok, IH; [done| |].
  - intros w Hw. apply Hall. by right.
  - apply elem_of_cons in Hz as [->|Hz]; [congruence|eauto].
Qed.

Lemma pairs_cover {A} (l : list A) (i : A) :
  i ∈ l → (2 ≤ length l)%nat → ∃ p, p ∈ pairs l ∧ (p.1 = i ∨ p.2 = i).
Proof.
  induction l as [|x l IH]; [by intros ?%elem_of_nil|].
  intros Hi Hlen. simpl.
  apply elem_of_cons in Hi as [->|Hi].
  - destruct l as [|y l]; [simpl in Hlen; lia|].
    exists (x, y). split; [|by left]. left.
  - destruct l as [|y [|z l]]; [by apply elem_of_nil in Hi| |].
    + apply list_elem_of_singleton in Hi as ->.
      exists (x, y). split; [left|by right].
    + destruct IH as (p & Hp & Hpi); [done|simpl; lia|].
      exists p. split; [|done]. apply elem_of_app. by right.
Qed.

Lemma pair_outcome_index P X p :
  same_dimension P X →
  ((p.1 < length X)%nat ∧ (p.2 < length X)%nat ∧
   ∃ o, pair_outcome P X p = Ok o) ∨
  (¬ ((p.1 < length X)%nat ∧ (p.2 < length X)%nat) ∧
   pair_outcome P X p = Raise IndexError).
Proof.
  intros Hdim. destruct p as [i j]. simpl.
  destruct (decide (i < length X)%nat) as [Hi|Hi];
    [destruct (decide (j < length X)%nat) as [Hj|Hj]|].
  - left. rewrite pair_outcome_well_formed by done. eauto.
  - right. split; [tauto|]. unfold pair_outcome, row. simpl.
    destruct (lookup_lt_is_Some_2 X i Hi) as [a ->].
    rewrite rbind_Ok, (lookup_ge_None_2 X j) by lia. done.
  - right. split; [tauto|]. unfold pair_outcome, row. simpl.
    by rewrite (lookup_ge_None_2 X i) by lia.
Qed.

(** X2.  For a pivot of the dimension of the rows, a candidate list of two
    or more entries with an index outside the matrix makes the statistic
    raise [IndexError]; nothing else is raised. *)
Theorem calculate_wocs_index_error (P : point) (X : matrix) (C : list nat) :
  same_dimension P X → (2 ≤ length C)%nat → ¬ in_range X C →
  _calculate_wocs P X C = Raise IndexError.
Proof.
  intros Hdim Hlen Hout. rewrite calculate_wocs_outcomes.
  rewrite (mapM_Raise_uniform _ _ IndexError); [done| |].
  - intros p _. destruct (pair_outcome_index P X p Hdim) as [(_ & _ & Ho)|[_ Hr]];
      [by left|by right].
  - apply not_Forall_Exists, Exists_exists in Hout as (i & Hi & Hge);
      [|intros ?; apply _].
    destruct (pairs_cover C i Hi Hlen) as (p & Hp & Hpi).
    exists p. split; [done|].
    destruct (pair_outcome_index P X p Hdim) as [(H1 & H2 & _)|[_ Hr]];
      [|done].
    destruct Hpi as [<-|<-]; done.
Qed.

Lemma calculate_wocs_index_error_witness :
  let P := [Qn 0; Qn 0] in
  let X := [[Qn 1; Qn 0]; [Qn 0; Qn 2]] in
  (same_dimension P X ∧ ¬ in_range X [0; 7]%nat) ∧
  _calculate_wocs P X [0; 7]%nat = Raise IndexError.
Proof.
  intros P X.
  assert (same_dimension P X) as Hdim by (repeat constructor).
  assert (¬ in_range X [0; 7]%nat) as Hout.
  { intros Hin. inversion_clear Hin as [|? ? _ Hin'].
    inversion_clear Hin' as [|? ? H7 _]. simpl in H7. lia. }
  split; [done|].
  apply (calculate_wocs_index_error P X [0; 7]%nat Hdim); [simpl; lia|done].
Defined.

(** X3.  The statistic reads only the rows of the candidates: two matrices
    with the same rows at the indices of the list give the same outcome. *)
Theorem calculate_wocs_reads_candidates (P : point) (X X' : matrix)
    (C : list nat) :
  (∀ i, i ∈ C → X !! i = X' !! i) →
  _calculate_wocs P X C = _calculate_wocs P X' C.
Proof.
  intros Hrows. rewrite !calculate_wocs_outcomes.
  rewrite (mapM_ext_in (pair_outcome P X) (pair_outcome P X')); [done|].
  intros [i j] [Hi Hj]%elem_of_pairs.
  unfold pair_outcome, row. simpl. by rewrite (Hrows i Hi), (Hrows j Hj).
Qed.

Lemma calculate_wocs_reads_candidates_witness :
  let P := [Qn 0; Qn 0] in
  let X := [[Qn 1; Qn 0]; [Qn 0; Qn 2]; [Qn 5; Qn 5]; [Qn 3; Qn 3]] in
  let X' := [[Qn 1; Qn 0]; [Qn 0; Qn 2]; [Qn 9; Qn 1]; [Qn 3; Qn 3]; [Qn 4]] in
  _calculate_wocs P X [0; 1; 3]%nat = _calculate_wocs P X' [0; 1; 3]%nat.
Proof.
  intros P X X'. apply calculate_wocs_reads_candidates.
  intros i Hi. repeat (apply elem_of_cons in Hi as [->|Hi]; [reflexivity|]).
  by apply elem_of_nil in Hi.
Defined.

(** * Further properties of the detector *)

Lemma mapM_Ok_Forall {A B} (f : A → result B) (l : list A) (ws : list B)
    (Pw : B → Prop) :
  mapM f l = Ok ws → (∀ x w, f x = Ok w → Pw w) → Forall Pw ws.
Proof.
  intros Hws HP. revert ws Hws. induction l as [|x l IH]; intros ws.
  - intros [= <-]. constructor.
  - rewrite mapM_cons. destruct (f x) as [w|] eqn:Hx; [|done].
    rewrite rbind_Ok. destruct (mapM f l) as [ws'|]; [|done].
    intros [= <-]. constructor; [by eapply HP|by apply IH].
Qed.

Lemma calculate_wocs_nonnegative_or_nan P X C w :
  _calculate_wocs P X C = Ok w → nonnegative_or_nan w.
Proof.
  unfold _calculate_wocs.
  destruct (wocs_loop P X [] (combinations C 2)) as [wcos_list|]; [|done].
  rewrite rbind_Ok. intros [= <-]. apply var_nonnegative_or_nan.
Qed.

Lemma score_steps_nonnegative Q X candidates l raw :
  mapM (score_step Q X candidates) l = Ok raw →
  Forall nonnegative_or_nan raw.
Proof.
  intros Hraw. apply (mapM_Ok_Forall _ _ _ _ Hraw). intros i w Hw.
  destruct (score_step_Ok_inv _ _ _ _ _ Hw) as (P & C & _ & _ & Hc).
  by eapply calculate_wocs_nonnegative_or_nan.
Qed.

Lemma negate_nonpositive raw :
  Forall nonnegative_or_nan raw → Forall nonpositive_or_nan (negate raw).
Proof.
  intros Hraw. unfold negate. apply Forall_fmap.
  eapply Forall_impl; [exact Hraw|]. intros [q|]; [|done]. simpl.
  intros Hq. replace (q * -1) with (- q) by ring.
  apply Qcopp_le_compat in Hq. by replace (- 0) with 0 in Hq by ring.
Qed.

Section MoreOutcomes.
Context {E : Collaborators}.

Lemma fit_Raise_inv X y s e s' :
  fit X y s = (Raise e, s') →
  (check_array X = Raise e ∧ s' = s) ∨
  ∃ X' d,
    check_array X = Ok X' ∧
    (s' = set_decision_scores_ d (started X' y s) ∨
     (String.eqb (method s) "fast" = true ∧
      s' = set_decision_scores_ d
             (set_tree_ {| tree_data := X' |} (started X' y s)))).
Proof.
  intros Hfit. pose proof (fit_cases X y s) as Hc.
  destruct (check_array X) as [X'|e0].
  2: { left. rewrite Hc in Hfit. by simplify_eq. }
  right. exists X'. cbn zeta in Hc.
  assert (∀ s0, decision_scores_ s0 = Some (zeros (length X')) →
                set_decision_scores_ (zeros (length X')) s0 = s0) as Hsame
    by (intros s0; apply set_decision_scores_same).
  destruct (String.eqb (method s) "fast");
    [|destruct (String.eqb (method s) "default")].
  - destruct (check_parameter _ _ _) as [[]|e1].
    2: { exists (zeros (length X')). split; [done|]. left.
         rewrite Hc in Hfit. by simplify_eq. }
    destruct (kneighbors X' (n_neighbors s)) as [ind_arr|e1].
    2: { exists (zeros (length X')). split; [done|]. right. split; [done|].
         rewrite Hc in Hfit. by simplify_eq. }
    destruct (mapM _ _) as [raw|e1]; [congruence|].
    destruct Hc as [d Hc]. exists d. split; [done|]. right. split; [done|].
    rewrite Hc in Hfit. by simplify_eq.
  - destruct (mapM _ _) as [raw|e1]; [congruence|].
    destruct Hc as [d Hc]. exists d. split; [done|]. left.
    rewrite Hc in Hfit. by simplify_eq.
  - exists (zeros (length X')). split; [done|]. left.
    rewrite Hc in Hfit. by simplify_eq.
Qed.

Lemma raw_scores_nonnegative s Xt Q raw :
  raw_scores s Xt Q = Ok raw → Forall nonnegative_or_nan raw.
Proof.
  unfold raw_scores. destruct (String.eqb (method s) "fast").
  - destruct (tree_ s) as [t|]; [|done].
    destruct (query t Q (n_neighbors s)) as [ind_arr|]; [|done].
    rewrite rbind_Ok. apply score_steps_nonnegative.
  - destruct (n_train_ s) as [n|]; [|done]. apply score_steps_nonnegative.
Qed.

Lemma raw_scores_length s Xt Q raw :
  raw_scores s Xt Q = Ok raw → length raw = length Q.
Proof.
  unfold raw_scores. destruct (String.eqb (method s) "fast").
  - destruct (tree_ s) as [t|]; [|done].
    destruct (query t Q (n_neighbors s)) as [ind_arr|]; [|done].
    rewrite rbind_Ok. intros ->%mapM_Ok_length. apply length_seq.
  - destruct (n_train_ s) as [n|]; [|done].
    intros ->%mapM_Ok_length. apply length_seq.
Qed.

Lemma decision_function_Ok_inv Q s r s' :
  decision_function Q s = (Ok r, s') →
  ∃ Q' Xt raw,
    check_array Q = Ok Q' ∧ X_train_ s = Some Xt ∧
    raw_scores s Xt Q' = Ok raw ∧ r = negate raw ∧ s' = s.
Proof.
  intros Hd.
  destruct (decision_function_Ok_fitted Q s r s' Hd)
    as ([Xt HX] & Hn & Hds & Ht & Hl).
  rewrite (decision_function_fitted Q s Xt) in Hd by done.
  destruct (check_array Q) as [Q'|]; [|done]. rewrite rbind_Ok in Hd.
  destruct (raw_scores s Xt Q') as [raw|] eqn:Hraw; [|done].
  rewrite rbind_Ok in Hd. injection Hd as <- <-.
  by exists Q', Xt, raw.
Qed.

End MoreOutcomes.

(** X5.  No score is ever positive: the scores stored by a successful
    [fit] and the scores returned by [decision_function] are each NaN or at
    most 0. *)
Theorem scores_nonpositive {E : Collaborators} :
  (∀ X y s s' d,
     fit X y s = (Ok tt, s') → decision_scores_ s' = Some d →
     Forall nonpositive_or_nan d) ∧
  (∀ Q s r s',
     decision_function Q s = (Ok r, s') → Forall nonpositive_or_nan r).
Proof.
  split.
  - intros X y s s' d Hfit Hd.
    destruct (fit_Ok_inv _ _ _ _ Hfit) as (X' & HX & [[_ Hf]|(_ & _ & Hf)]).
    + destruct Hf as (ind_arr & raw & _ & Hraw & ->).
      injection Hd as <-.
      by eapply negate_nonpositive, score_steps_nonnegative.
    + destruct Hf as (raw & Hraw & ->). injection Hd as <-.
      by eapply negate_nonpositive, score_steps_nonnegative.
  - intros Q s r s' Hd.
    destruct (decision_function_Ok_inv _ _ _ _ Hd)
      as (Q' & Xt & raw & _ & _ & Hraw & -> & _).
    by eapply negate_nonpositive, raw_scores_nonnegative.
Qed.

Lemma scores_nonpositive_witness :
  let X := [[Qn 0; Qn 0]; [Qn 1; Qn 0]; [Qn 0; Qn 1]; [Qn 1; Qn 1];
            [Qn 10; Qn 10]] in
  let s := __init__ (frac 1 5) 5 "default" in
  let s' := (fit X None s).2 in
  let d := default [] (decision_scores_ s') in
  fit X None s = (Ok tt, s') ∧ decision_scores_ s' = Some d ∧
  d !! 0%nat = Some (Fin (frac (-689) 14400)) ∧
  Forall nonpositive_or_nan d.
Proof.
  intros X s s' d.
  assert (fit X None s = (Ok tt, s')) as Hfit by (by vm_compute).
  assert (decision_scores_ s' = Some d) as Hd by (by vm_compute).
  split; [done|]. split; [done|]. split; [by vm_compute|].
  exact (proj1 scores_nonpositive X None s s' d Hfit Hd).
Defined.

(** X6.  After a successful [fit] the detector holds the validated
    training set, its number of rows, one score per row, and the threshold
    and labels computed from these scores; the constructor parameters are
    unchanged.  In fast mode [tree_] is the index over the training set. *)
Theorem fit_postconditions {E : Collaborators} (X : matrix)
    (y : option (list Z)) (s s' : ABOD) :
  fit X y s = (Ok tt, s') →
  ∃ X' d,
    check_array X = Ok X' ∧
    X_train_ s' = Some X' ∧ n_train_ s' = Some (length X') ∧
    decision_scores_ s' = Some d ∧ length d = length X' ∧
    threshold_ s' = Some (threshold (contamination s) d) ∧
    labels_ s' = Some (labels (contamination s) d) ∧
    _classes s' = Some (n_classes y) ∧
    contamination s' = contamination s ∧ n_neighbors s' = n_neighbors s ∧
    method s' = method s ∧
    (method s = "fast"%string → tree_ s' = Some {| tree_data := X' |}).
Proof.
  intros Hfit.
  destruct (fit_Ok_inv _ _ _ _ Hfit) as (X' & HX & [[Hfast Hf]|(Hnot & _ & Hf)]).
  - destruct Hf as (ind_arr & raw & _ & Hraw & ->).
    exists X', (negate raw). apply mapM_Ok_length in Hraw.
    unfold range in Hraw. rewrite length_seq in Hraw.
    repeat split; try done.
    unfold negate. by rewrite length_fmap.
  - destruct Hf as (raw & Hraw & ->).
    exists X', (negate raw). apply mapM_Ok_length in Hraw.
    unfold range in Hraw. rewrite length_seq in Hraw.
    repeat split; try done.
    + unfold negate. by rewrite length_fmap.
    + intros Hm. rewrite Hm in Hnot. discriminate Hnot.
Qed.

Lemma fit_postconditions_witness :
  let X := [[Qn 0; Qn 0]; [Qn 1; Qn 0]; [Qn 0; Qn 1]; [Qn 1; Qn 1];
            [Qn 10; Qn 10]] in
  let s := __init__ (frac 1 5) 3 "fast" in
  let s' := (fit X None s).2 in
  fit X None s = (Ok tt, s') ∧
  X_train_ s' = Some X ∧ n_train_ s' = Some 5%nat ∧
  tree_ s' = Some {| tree_data := X |} ∧
  ∃ d, decision_scores_ s' = Some d ∧ length d = 5%nat.
Proof.
  intros X s s'.
  assert (fit X None s = (Ok tt, s')) as Hfit by (by vm_compute).
  destruct (fit_postconditions X None s s' Hfit)
    as (X' & d & HX & H1 & H2 & H3 & H4 & _ & _ & _ & _ & _ & _ & Htree).
  assert (X' = X) as -> by (by injection HX).
  split; [exact Hfit|]. split; [exact H1|]. split; [exact H2|].
  split; [exact (Htree eq_refl)|]. exists d. exact (conj H3 H4).
Defined.

Lemma tree_set_method (m : string) (s : ABOD) :
  tree_ (set_method m s) = tree_ s.
Proof. done. Qed.

(** X7.  In every mode but fast, [fit] leaves [tree_] as it was, whether
    it succeeds or raises: a refit in default mode neither builds nor
    discards the index of an earlier fast-mode fit. *)
Theorem fit_not_fast_keeps_tree {E : Collaborators} (X : matrix)
    (y : option (list Z)) (s : ABOD) :
  method s ≠ "fast"%string → tree_ (fit X y s).2 = tree_ s.
Proof.
  intros Hnot%String.eqb_neq.
  destruct (fit X y s) as [[[]|e] s'] eqn:Hfit; simpl.
  - destruct (fit_Ok_inv _ _ _ _ Hfit) as (X' & _ & [[Hfast _]|(_ & _ & Hf)]);
      [congruence|].
    by destruct Hf as (raw & _ & ->).
  - destruct (fit_Raise_inv _ _ _ _ _ Hfit)
      as [[_ ->]|(X' & d & _ & [->|[Hfast _]])]; [done|done|congruence].
Qed.

Lemma fit_not_fast_keeps_tree_witness :
  let X := [[Qn 0; Qn 0]; [Qn 1; Qn 0]; [Qn 0; Qn 1]; [Qn 3; Qn 3]] in
  let X2 := [[Qn 5; Qn 5]; [Qn 6; Qn 5]; [Qn 5; Qn 7]] in
  let s1 := (fit X None (__init__ (frac 1 5) 3 "fast")).2 in
  let s2 := (fit X2 None (set_method "default" s1)).2 in
  tree_ s1 = Some {| tree_data := X |} ∧
  X_train_ s2 = Some X2 ∧ tree_ s2 = Some {| tree_data := X |}.
Proof.
  intros X X2 s1 s2.
  assert (tree_ s1 = Some {| tree_data := X |}) as Ht by (by vm_compute).
  assert (method (set_method "default" s1) ≠ "fast"%string) as Hm
    by discriminate.
  split; [exact Ht|]. split; [by vm_compute|].
  pose proof (fit_not_fast_keeps_tree X2 None (set_method "default" s1) Hm)
    as Hkeep.
  exact (eq_trans Hkeep (eq_trans (tree_set_method "default" s1) Ht)).
Defined.

(** X8.  A [fit] that raises either leaves the detector untouched (the
    input did not pass validation) or leaves it holding the new training
    set, its size and the new class count, with [threshold_] and [labels_]
    as they were before the call. *)
Theorem fit_failure_state {E : Collaborators} (X : matrix)
    (y : option (list Z)) (s s' : ABOD) (e : exn) :
  fit X y s = (Raise e, s') →
  (check_array X = Raise e ∧ s' = s) ∨
  ∃ X',
    check_array X = Ok X' ∧
    X_train_ s' = Some X' ∧ n_train_ s' = Some (length X') ∧
    _classes s' = Some (n_classes y) ∧
    is_Some (decision_scores_ s') ∧
    threshold_ s' = threshold_ s ∧ labels_ s' = labels_ s.
Proof.
  intros Hfit.
  destruct (fit_Raise_inv _ _ _ _ _ Hfit)
    as [?|(X' & d & HX & [->|[_ ->]])]; [by left|right..];
    exists X'; by repeat split; try eexists.
Qed.

Lemma fit_failure_state_witness :
  let X := [[Qn 0; Qn 0]; [Qn 1; Qn 0]; [Qn 0; Qn 1]; [Qn 3; Qn 3]] in
  let X2 := [[Qn 5; Qn 5]; [Qn 6; Qn 5]] in
  let s1 := (fit X None (__init__ (frac 1 5) 3 "fast")).2 in
  let s2 := (fit X2 None s1).2 in
  fit X2 None s1 =
    (Raise (ValueError ["parameter is not in the range"%string]), s2) ∧
  X_train_ s2 = Some X2 ∧ threshold_ s2 = threshold_ s1 ∧
  is_Some (threshold_ s1) ∧ tree_ s2 = Some {| tree_data := X |}.
Proof.
  intros X X2 s1 s2.
  assert (fit X2 None s1 =
          (Raise (ValueError ["parameter is not in the range"%string]), s2))
    as Hfit by (by vm_compute).
  split; [done|].
  destruct (fit_failure_state X2 None s1 s2 _ Hfit)
    as [[Hc _]|(X' & HX & H1 & _ & _ & _ & Ht & _)]; [discriminate Hc|].
  assert (X' = X2) as -> by (by injection HX).
  split; [exact H1|]. split; [exact Ht|]. split; [|by vm_compute].
  by apply (bool_decide_unpack _); vm_compute.
Defined.

(** X9.  A successful [fit] depends on the detector it is called on only
    through [contamination], [n_neighbors] and [method] (and, outside fast
    mode, the [tree_] it keeps): whatever was fitted before is replaced. *)
Theorem fit_replaces_previous_fit {E : Collaborators} (X : matrix)
    (y : option (list Z)) (s t s' : ABOD) :
  fit X y s = (Ok tt, s') →
  contamination t = contamination s → n_neighbors t = n_neighbors s →
  method t = method s →
  (method s = "fast"%string ∨ tree_ t = tree_ s) →
  fit X y t = (Ok tt, s').
Proof.
  intros Hfit Hc Hk Hm Htree.
  pose proof (fit_cases X y s) as Hs. pose proof (fit_cases X y t) as Ht.
  rewrite Hk, Hm in Ht.
  destruct (check_array X) as [X'|e]; [|congruence]. cbn zeta in Hs, Ht.
  assert (∀ raw tr,
            fitted raw (set_tree_ tr (started X' y t))
            = fitted raw (set_tree_ tr (started X' y s))) as Hfast.
  { intros raw tr. destruct s, t; simpl in *; by subst. }
  assert (tree_ t = tree_ s →
          ∀ raw, fitted raw (started X' y t) = fitted raw (started X' y s))
    as Hdefault.
  { intros Htr raw. destruct s, t; simpl in *; by subst. }
  destruct (String.eqb (method s) "fast") eqn:Hmode;
    [|destruct (String.eqb (method s) "default")].
  - destruct (check_parameter _ _ _) as [[]|e]; [|congruence].
    destruct (kneighbors X' (n_neighbors s)) as [ind_arr|e]; [|congruence].
    destruct (mapM _ _) as [raw|e]; [|destruct Hs; congruence].
    rewrite Ht, Hfast. congruence.
  - destruct (mapM _ _) as [raw|e]; [|destruct Hs; congruence].
    destruct Htree as [Hf|Htr].
    { rewrite Hf in Hmode. discriminate Hmode. }
    rewrite Ht, (Hdefault Htr). congruence.
  - congruence.
Qed.

Lemma fit_replaces_previous_fit_witness :
  let X0 := [[Qn 7; Qn 7]; [Qn 8; Qn 9]; [Qn 9; Qn 7]] in
  let X := [[Qn 0; Qn 0]; [Qn 1; Qn 0]; [Qn 0; Qn 1]; [Qn 3; Qn 3]] in
  let s := __init__ (frac 1 5) 3 "fast" in
  let t := (fit X0 None s).2 in
  let s' := (fit X None s).2 in
  fit X0 None s = (Ok tt, t) ∧ fit X None s = (Ok tt, s') ∧
  fit X None t = (Ok tt, s').
Proof.
  intros X0 X s t s'.
  assert (fit X0 None s = (Ok tt, t)) as H0 by (by vm_compute).
  assert (fit X None s = (Ok tt, s')) as Hfit by (by vm_compute).
  assert (contamination t = contamination s) as Hc by (by vm_compute).
  assert (n_neighbors t = n_neighbors s) as Hk by (by vm_compute).
  assert (method t = method s) as Hm by (by vm_compute).
  split; [exact H0|]. split; [exact Hfit|].
  exact (fit_replaces_previous_fit X None s t s' Hfit Hc Hk Hm
           (or_introl eq_refl)).
Defined.

(** X10.  [decision_function] returns one score for each row of the
    validated query matrix. *)
Theorem decision_function_one_score_per_row {E : Collaborators}
    (Q : matrix) (s s' : ABOD) (r : list scalar) :
  decision_function Q s = (Ok r, s') →
  ∃ Q', check_array Q = Ok Q' ∧ length r = length Q'.
Proof.
  intros Hd.
  destruct (decision_function_Ok_inv _ _ _ _ Hd)
    as (Q' & Xt & raw & HQ & _ & Hraw & -> & _).
  exists Q'. split; [done|].
  unfold negate. rewrite length_fmap. by eapply raw_scores_length.
Qed.

Lemma decision_function_one_score_per_row_witness :
  let X := [[Qn 0; Qn 0]; [Qn 1; Qn 0]; [Qn 0; Qn 1]; [Qn 3; Qn 3]] in
  let Q := [[Qn 2; Qn 2]; [Qn 0; Qn 5]; [Qn 1; Qn 1]] in
  let s := (fit X None (__init__ (frac 1 5) 3 "fast")).2 in
  let r := decision_function_values Q s in
  decision_function Q s = (Ok r, s) ∧ length r = 3%nat.
Proof.
  intros X Q s r.
  assert (decision_function Q s = (Ok r, s)) as Hd by (by vm_compute).
  split; [exact Hd|].
  destruct (decision_function_one_score_per_row Q s s r Hd)
    as (Q' & HQ & Hlen).
  assert (Q' = Q) as -> by (by injection HQ).
  exact Hlen.
Defined.

(** X11.  In fast mode [decision_function] needs [tree_] besides the five
    fitted attributes: on a detector that has them but no [tree_] (fitted
    in default mode, then switched to 'fast') it raises the not-fitted
    error for [tree_], after the query matrix has passed validation. *)
Theorem decision_function_fast_needs_tree {E : Collaborators}
    (Q Q' : matrix) (s : ABOD) :
  method s = "fast"%string → tree_ s = None →
  is_Some (X_train_ s) → is_Some (n_train_ s) →
  is_Some (decision_scores_ s) → is_Some (threshold_ s) →
  is_Some (labels_ s) →
  check_array Q = Ok Q' →
  decision_function Q s = (Raise (NotFittedError ["tree_"%string]), s).
Proof.
  intros Hfast%String.eqb_eq Htree [Xt HX] Hn Hd Ht Hl HQ.
  rewrite (decision_function_fitted Q s Xt) by done.
  unfold raw_scores. by rewrite HQ, Hfast, Htree.
Qed.

Lemma decision_function_fast_needs_tree_witness :
  let X := [[Qn 0; Qn 0]; [Qn 1; Qn 0]; [Qn 0; Qn 1]; [Qn 3; Qn 3]] in
  let s := set_method "fast" (fit X None (__init__ (frac 1 5) 3 "default")).2 in
  decision_function X s = (Raise (NotFittedError ["tree_"%string]), s).
Proof.
  intros X s.
  assert (check_array X = Ok X) as HX by reflexivity.
  apply (decision_function_fast_needs_tree X X s); try exact HX;
    try (by vm_compute); by apply (bool_decide_unpack _); vm_compute.
Defined.

Lemma hasattr_set_method (m : string) (s : ABOD) (a : string) :
  hasattr (set_method m s) a = hasattr s a.
Proof. done. Qed.

(** X12.  [decision_function] tests the method for 'fast' only: with any
    other method string, valid or not, it scores as in default mode. *)
Theorem decision_function_not_fast_is_default {E : Collaborators}
    (Q : matrix) (s : ABOD) :
  method s ≠ "fast"%string →
  (decision_function Q s).1 = (decision_function Q (set_method "default" s)).1.
Proof.
  intros Hnot%String.eqb_neq.
  destruct (X_train_ s) as [Xt|] eqn:HX;
    [destruct (n_train_ s) as [n|] eqn:Hn;
     [destruct (decision_scores_ s) as [d|] eqn:Hd;
      [destruct (threshold_ s) as [th|] eqn:Ht;
       [destruct (labels_ s) as [lb|] eqn:Hl|]|]|]|].
  - rewrite (decision_function_fitted Q s Xt),
      (decision_function_fitted Q (set_method "default" s) Xt);
      try (simpl; rewrite ?HX, ?Hn, ?Hd, ?Ht, ?Hl; by eauto).
    unfold raw_scores. simpl. by rewrite Hnot.
  - destruct (decision_function_not_fitted Q s "labels_")
      as (m1 & -> & Hm1 & _); [by repeat constructor| |].
    { unfold hasattr. simpl. by rewrite Hl. }
    destruct (decision_function_not_fitted Q (set_method "default" s) "labels_")
      as (m2 & -> & Hm2 & _); [by repeat constructor| |].
    { rewrite hasattr_set_method. unfold hasattr. simpl. by rewrite Hl. }
    simpl. by rewrite Hm1, Hm2.
  - destruct (decision_function_not_fitted Q s "threshold_")
      as (m1 & -> & Hm1 & _); [by repeat constructor| |].
    { unfold hasattr. simpl. by rewrite Ht. }
    destruct (decision_function_not_fitted Q (set_method "default" s)
                "threshold_")
      as (m2 & -> & Hm2 & _); [by repeat constructor| |].
    { rewrite hasattr_set_method. unfold hasattr. simpl. by rewrite Ht. }
    simpl. by rewrite Hm1, Hm2.
  - destruct (decision_function_not_fitted Q s "decision_scores_")
      as (m1 & -> & Hm1 & _); [by repeat constructor| |].
    { unfold hasattr. simpl. by rewrite Hd. }
    destruct (decision_function_not_fitted Q (set_method "default" s)
                "decision_scores_")
      as (m2 & -> & Hm2 & _); [by repeat constructor| |].
    { rewrite hasattr_set_method. unfold hasattr. simpl. by rewrite Hd. }
    simpl. by rewrite Hm1, Hm2.
  - destruct (decision_function_not_fitted Q s "n_train_")
      as (m1 & -> & Hm1 & _); [by repeat constructor| |].
    { unfold hasattr. simpl. by rewrite Hn. }
    destruct (decision_function_not_fitted Q (set_method "default" s)
                "n_train_")
      as (m2 & -> & Hm2 & _); [by repeat constructor| |].
    { rewrite hasattr_set_method. unfold hasattr. simpl. by rewrite Hn. }
    simpl. by rewrite Hm1, Hm2.
  - destruct (decision_function_not_fitted Q s "X_train_")
      as (m1 & -> & Hm1 & _); [by repeat constructor| |].
    { unfold hasattr. simpl. by rewrite HX. }
    destruct (decision_function_not_fitted Q (set_method "default" s)
                "X_train_")
      as (m2 & -> & Hm2 & _); [by repeat constructor| |].
    { rewrite hasattr_set_method. unfold hasattr. simpl. by rewrite HX. }
    simpl. by rewrite Hm1, Hm2.
Qed.

Lemma decision_function_not_fast_is_default_witness :
  let X := [[Qn 0; Qn 0]; [Qn 1; Qn 0]; [Qn 0; Qn 1]; [Qn 3; Qn 3]] in
  let s := set_method "exact" (fit X None (__init__ (frac 1 5) 3 "fast")).2 in
  (decision_function X s).1 =
  (decision_function X (set_method "default" s)).1.
Proof.
  intros X s.
  assert (method s ≠ "fast"%string) as Hm by discriminate.
  exact (decision_function_not_fast_is_default X s Hm).
Defined.

(** X13.  Default mode needs three training points to form an angle: on a
    validated training set of at most two points, [fit] succeeds and
    stores NaN for every point. *)
Theorem fit_default_few_points {E : Collaborators} (X X' : matrix)
    (y : option (list Z)) (s : ABOD) :
  method s = "default"%string → check_array X = Ok X' →
  (length X' ≤ 2)%nat →
  ∃ s', fit X y s = (Ok tt, s') ∧
        decision_scores_ s' = Some (replicate (length X') NaN).
Proof.
  intros Hm HX Hlen.
  pose proof (fit_cases X y s) as Hfit.
  rewrite HX, Hm in Hfit. cbn zeta in Hfit.
  change (String.eqb "default" "fast") with false in Hfit.
  change (String.eqb "default" "default") with true in Hfit.
  cbn match in Hfit.
  assert (mapM (score_step X' X' (fit_default_candidates (length X')))
               (range (length X')) = Ok (replicate (length X') NaN)) as Hraw.
  { destruct X' as [|a [|b [|c X']]]; [by vm_compute..|simpl in Hlen; lia]. }
  rewrite Hraw in Hfit. eexists. split; [exact Hfit|].
  simpl. unfold negate. by rewrite fmap_replicate.
Qed.

Lemma fit_default_few_points_witness :
  let X := [[Qn 0; Qn 0]; [Qn 1; Qn 0]] in
  ∃ s', fit X None (__init__ (frac 1 5) 3 "default") = (Ok tt, s') ∧
        decision_scores_ s' = Some [NaN; NaN].
Proof.
  intros X.
  assert (check_array X = Ok X) as HX by reflexivity.
  apply (fit_default_few_points X X None
           (__init__ (frac 1 5) 3 "default") eq_refl HX).
  simpl. lia.
Defined.

Lemma calculate_wocs_two_candidates P X C w :
  length C = 2%nat → in_range X C → same_dimension P X →
  _calculate_wocs P X C = Ok w → w = NaN ∨ w = Fin 0.
Proof.
  intros Hlen Hin Hdim.
  rewrite calculate_wocs_well_formed, var_Fin by done.
  destruct C as [|a [|b [|c C]]]; try done.
  unfold wocs_values. simpl. rewrite filter_cons, filter_nil.
  destruct (decide (skipped P X (a, b) = false)); simpl.
  - rewrite population_variance_singleton. intros [= <-]. by right.
  - intros [= <-]. by left.
Qed.

(** X14.  With two neighbors a pivot has a single pair of candidates: a
    fit in fast mode with [n_neighbors = 2] on more than two points
    succeeds and every stored score is 0 or NaN. *)
Theorem fit_fast_two_neighbors {E : Collaborators} {HE : Contract E}
    (X X' : matrix) (y : option (list Z)) (s : ABOD) :
  method s = "fast"%string → n_neighbors s = 2%Z →
  check_array X = Ok X' → (2 < length X')%nat →
  ∃ s' d, fit X y s = (Ok tt, s') ∧ decision_scores_ s' = Some d ∧
          Forall (fun v => v = NaN ∨ v = Fin 0) d.
Proof.
  intros Hfast%String.eqb_eq Hk HX Hlen.
  destruct (check_array_2d _ _ HX) as [_ [D H2d]].
  destruct (fit_fast_succeeds X X' y s Hfast HX)
    as (ind_arr & raw & Hind & Hraw & Hfit); [lia|].
  destruct (kneighbors_shape _ _ _ Hind) as [_ Hshape].
  eexists _, _. split; [exact Hfit|]. split; [done|].
  unfold negate. apply Forall_fmap.
  assert (Forall (fun w => w = NaN ∨ w = Fin 0) raw) as Hall.
  { apply (mapM_Ok_Forall _ _ _ _ Hraw). intros i w Hw.
    destruct (score_step_Ok_inv _ _ _ _ _ Hw) as (P & C & HP & HC & Hc).
    unfold index_row in HC.
    destruct (ind_arr !! i) as [C'|] eqn:Hrow; [|done]. simplify_eq.
    destruct (Forall_lookup_1 _ _ _ _ Hshape Hrow) as [HlenC HinC].
    apply (calculate_wocs_two_candidates P X' C); try done;
      first [by rewrite HlenC, Hk | by eapply same_dimension_row]. }
  eapply Forall_impl; [exact Hall|]. intros w [->| ->]; [by left|right].
  simpl. f_equal; ring.
Qed.

Lemma fit_fast_two_neighbors_witness :
  let X := [[Qn 0; Qn 0]; [Qn 1; Qn 0]; [Qn 0; Qn 1]; [Qn 3; Qn 3]] in
  ∃ s' d, fit X None (__init__ (frac 1 5) 2 "fast") = (Ok tt, s') ∧
          decision_scores_ s' = Some d ∧
          Forall (fun v => v = NaN ∨ v = Fin 0) d.
Proof.
  intros X.
  assert (check_array X = Ok X) as HX by reflexivity.
  apply (fit_fast_two_neighbors X X None (__init__ (frac 1 5) 2 "fast")
           eq_refl eq_refl HX).
  simpl. lia.
Defined.

Lemma mapM_filter_skipped {A B C} (f : A → result (option B))
    (Q : A → Prop) `{!∀ x, Decision (Q x)} (l : list A) :
  (∀ x, x ∈ l → ¬ Q x → f x = Ok None) →
  ∀ k : list B → result C,
    (os ← mapM f l; k (omap id os)) = (os ← mapM f (filter Q l); k (omap id os)).
Proof.
  induction l as [|x l IH]; intros Hnone k; [done|].
  assert (∀ z, z ∈ l → ¬ Q z → f z = Ok None) as Hnone'
    by (intros z Hz; apply Hnone; by right).
  rewrite filter_cons. destruct (decide (Q x)) as [HQ|HQ].
  - rewrite !mapM_cons. destruct (f x) as [o|e]; [|done].
    rewrite !rbind_Ok.
    specialize (IH Hnone' (fun vs => k (option_list o ++ vs))).
    destruct (mapM f l) as [os|e], (mapM f (filter Q l)) as [os'|e'];
      rewrite ?rbind_Ok, ?rbind_Raise in *; try done;
      by destruct o.
  - rewrite mapM_cons, (Hnone x) by (done || left). rewrite rbind_Ok.
    specialize (IH Hnone' k).
    destruct (mapM f l) as [os|e]; rewrite ?rbind_Ok, ?rbind_Raise in *; done.
Qed.

Lemma calculate_wocs_self_irrelevant P X C i :
  X !! i = Some P → in_range X C →
  _calculate_wocs P X C = _calculate_wocs P X (filter (fun j => j ≠ i) C).
Proof.
  intros HP Hin. rewrite !calculate_wocs_outcomes, pairs_filter.
  refine (mapM_filter_skipped (pair_outcome P X)
            (fun p => p.1 ≠ i ∧ p.2 ≠ i) (pairs C) _ (fun vs => Ok (var vs))).
  intros [a b] Hp Hnot.
  pose proof (pairs_in_range (fun j => (j < length X)%nat) C Hin) as Hr.
  rewrite Forall_forall in Hr. destruct (Hr _ Hp) as [Ha Hb].
  apply pair_outcome_skipped; [done..|].
  unfold skipped, coincident. simpl in *.
  apply orb_true_iff.
  destruct (decide (a = i)) as [->|Ha'].
  - left. rewrite (list_lookup_total_correct _ _ _ HP).
    apply array_equal_refl.
  - destruct (decide (b = i)) as [->|Hb']; [|tauto].
    right. rewrite (list_lookup_total_correct _ _ _ HP).
    apply array_equal_refl.
Qed.

Lemma filter_absent (l : list nat) (x : nat) :
  x ∉ l → filter (fun j => j ≠ x) l = l.
Proof.
  induction l as [|y l IH]; [done|].
  intros [Hne Hl]%not_elem_of_cons.
  rewrite filter_cons, decide_True by done. by rewrite IH.
Qed.

Lemma list_remove_filter (l : list nat) (x : nat) :
  NoDup l → x ∈ l → list_remove l x = Ok (filter (fun j => j ≠ x) l).
Proof.
  induction 1 as [|y l Hy Hnd IH]; [by intros ?%elem_of_nil|].
  intros Hx. simpl. rewrite filter_cons.
  destruct (Nat.eqb_spec y x) as [->|Hne].
  - rewrite decide_False by tauto. by rewrite filter_absent.
  - apply elem_of_cons in Hx as [->|Hx]; [done|].
    rewrite IH by done. by rewrite rbind_Ok, decide_True.
Qed.

(** X15.  In default mode, scoring the training set reproduces the scores
    of the fit: the index of a training point is a candidate at score time
    and not at fit time, but every pair it forms is skipped, so after a
    successful [fit], [decision_function] on the validated training matrix
    returns [decision_scores_]. *)
Theorem default_scoring_reproduces_fit {E : Collaborators} (X X' : matrix)
    (y : option (list Z)) (s s' : ABOD) :
  method s = "default"%string → fit X y s = (Ok tt, s') →
  check_array X = Ok X' → check_array X' = Ok X' →
  ∃ d, decision_scores_ s' = Some d ∧ decision_function X' s' = (Ok d, s').
Proof.
  intros Hm Hfit HX HX'.
  assert (String.eqb (method s) "fast" = false) as Hnot
    by (rewrite Hm; reflexivity).
  destruct (fit_Ok_inv _ _ _ _ Hfit) as (X1 & HX1 & [[? _]|(_ & _ & Hf)]);
    [congruence|].
  assert (X1 = X') as -> by congruence.
  destruct Hf as (raw & Hraw & ->).
  exists (negate raw). split; [done|].
  destruct (fitted_attributes raw X' y (started X' y s) s)
    as (H1 & H2 & H3 & H4 & H5 & H6 & _); [by left|].
  rewrite (decision_function_fitted X' _ X') by eauto.
  rewrite HX', rbind_Ok. unfold raw_scores. rewrite H6, Hnot, H2.
  rewrite (mapM_ext_in _ (score_step X' X' (fit_default_candidates (length X'))));
    [by rewrite Hraw|].
  intros i Hi%elem_of_seq. unfold score_step, row.
  destruct (lookup_lt_is_Some_2 X' i) as [P HP]; [lia|].
  rewrite HP, !rbind_Ok. unfold fit_default_candidates, score_default_candidates.
  rewrite list_remove_filter, rbind_Ok.
  - apply calculate_wocs_self_irrelevant; [done|].
    apply Forall_forall. intros j Hj%elem_of_seq. lia.
  - apply NoDup_seq.
  - apply elem_of_seq. lia.
Qed.

Lemma default_scoring_reproduces_fit_witness :
  let X := [[Qn 0; Qn 0]; [Qn 1; Qn 0]; [Qn 0; Qn 1]; [Qn 1; Qn 1];
            [Qn 10; Qn 10]] in
  let s := __init__ (frac 1 5) 5 "default" in
  let s' := (fit X None s).2 in
  fit X None s = (Ok tt, s') ∧
  ∃ d, decision_scores_ s' = Some d ∧ decision_function X s' = (Ok d, s') ∧
       d !! 0%nat = Some (Fin (frac (-689) 14400)).
Proof.
  intros X s s'.
  assert (fit X None s = (Ok tt, s')) as Hfit by (by vm_compute).
  assert (check_array X = Ok X) as HX by reflexivity.
  assert (default [] (decision_scores_ s') !! 0%nat
          = Some (Fin (frac (-689) 14400))) as H0 by (by vm_compute).
  split; [exact Hfit|].
  destruct (default_scoring_reproduces_fit X X None s s' eq_refl Hfit HX HX)
    as (d & Hd & Hdf).
  exists d. split; [exact Hd|]. split; [exact Hdf|].
  exact (eq_trans
           (eq_sym (f_equal (fun o => default [] o !! 0%nat) Hd)) H0).
Defined.
